(** * py-caskdb: the record codec ([format.py]) and the log-structured
      store ([disk_store.py]), embedded and verified.

    Python values are modelled as follows.
    - [int] is [Z].
    - [bytes] is [list byte] (the Standard Library's 256-constructor type),
      so that every element is in [0, 256) by typing.
    - [str] is a list of code points, each a [Z].  Python's [str] type only
      holds code points below [0x110000]; lone surrogates are allowed in a
      [str] but rejected by [str.encode("utf-8")].
    - a raised exception is the [Raise] branch of [result].
    - [dict] is stdpp's [gmap]. *)

From Stdlib Require Import ZArith Lia List.
From Stdlib Require Import Strings.Byte.
From stdpp Require Import gmap list fin_maps strings.
From Equations Require Import Equations.
From Equations.Prop Require Import Logic.

Local Open Scope Z_scope.

(** ** Exceptions and the result monad *)

Inductive exn : Type :=
| StructError            (* struct.error *)
| AssertionError
| UnicodeEncodeError
| UnicodeDecodeError
| ValueError.            (* I/O operation on closed file *)

Inductive result (A : Type) : Type :=
| Ok (a : A)
| Raise (e : exn).
Arguments Ok {A} a.
Arguments Raise {A} e.

#[global] Instance result_ret : MRet result := @Ok.
#[global] Instance result_bind : MBind result := fun A B k r =>
  match r with
  | Ok a => k a
  | Raise e => Raise e
  end.

(** An [assert] statement; assertions are executed (no [-O]). *)
Definition assert (b : bool) : result unit :=
  if b then Ok tt else Raise AssertionError.

Definition is_ok {A} (r : result A) : Prop := exists a, r = Ok a.

(** ** Bytes *)

Abbreviation bytes := (list byte).
Abbreviation str := (list Z).

Definition byte_to_Z (b : byte) : Z := Z.of_N (Byte.to_N b).

(** The byte whose value is [z mod 256]. *)
Definition byte_of_Z (z : Z) : byte :=
  match Byte.of_N (Z.to_N (z mod 256)) with
  | Some b => b
  | None => x00
  end.

(** [len(x)] *)
Definition len {A} (l : list A) : Z := Z.of_nat (length l).

(** [data[lo:hi]] with Python's clipping of out-of-range and negative
    indices. *)
Definition slice_index {A} (data : list A) (i : Z) : Z :=
  if i <? 0 then Z.max 0 (i + len data) else Z.min i (len data).

Definition slice {A} (data : list A) (lo hi : Z) : list A :=
  let lo' := slice_index data lo in
  let hi' := slice_index data hi in
  take (Z.to_nat (hi' - lo')) (drop (Z.to_nat lo') data).

(** ** [struct.pack] / [struct.unpack] for the format ["!III"] *)

Definition uint32_max : Z := 2 ^ 32.

(** One ["I"] field, network byte order.  [struct.pack] raises
    [struct.error] when the argument is outside [0, 2^32). *)
Definition pack_uint32 (v : Z) : result bytes :=
  if (0 <=? v) && (v <? uint32_max) then
    Ok [byte_of_Z (v / 16777216); byte_of_Z (v / 65536);
        byte_of_Z (v / 256); byte_of_Z v]
  else Raise StructError.

Definition unpack_uint32 (b0 b1 b2 b3 : byte) : Z :=
  byte_to_Z b0 * 16777216 + byte_to_Z b1 * 65536
  + byte_to_Z b2 * 256 + byte_to_Z b3.

Definition struct_pack_III (a b c : Z) : result bytes :=
  x ← pack_uint32 a;
  y ← pack_uint32 b;
  z ← pack_uint32 c;
  Ok (x ++ y ++ z).

(** [struct.unpack("!III", data)] raises [struct.error] unless [data] is
    exactly 12 bytes long. *)
Definition struct_unpack_III (data : bytes) : result (Z * Z * Z) :=
  match data with
  | [a0; a1; a2; a3; b0; b1; b2; b3; c0; c1; c2; c3] =>
      Ok (unpack_uint32 a0 a1 a2 a3,
          unpack_uint32 b0 b1 b2 b3,
          unpack_uint32 c0 c1 c2 c3)
  | _ => Raise StructError
  end.

(** ** format.py *)

Definition encode_header (timestamp key_size value_size : Z) : result bytes :=
  struct_pack_III timestamp key_size value_size.

Definition decode_header (data : bytes) : result (Z * Z * Z) :=
  struct_unpack_III data.

(** ** UTF-8, as [str.encode("utf-8")] and [bytes.decode("utf-8")] do it
    (strict error handling) *)

(** The byte values of one code point.  Surrogates and values that are not
    code points are refused. *)
Definition utf8_encode_cp (c : Z) : result (list Z) :=
  if c <? 0 then Raise UnicodeEncodeError
  else if c <? 0x80 then Ok [c]
  else if c <? 0x800 then Ok [0xC0 + c / 64; 0x80 + c mod 64]
  else if c <? 0x10000 then
    if (0xD800 <=? c) && (c <=? 0xDFFF) then Raise UnicodeEncodeError
    else Ok [0xE0 + c / 4096; 0x80 + (c / 64) mod 64; 0x80 + c mod 64]
  else if c <? 0x110000 then
    Ok [0xF0 + c / 262144; 0x80 + (c / 4096) mod 64;
        0x80 + (c / 64) mod 64; 0x80 + c mod 64]
  else Raise UnicodeEncodeError.

Fixpoint utf8_encode_values (s : str) : result (list Z) :=
  match s with
  | [] => Ok []
  | c :: s' =>
      zs ← utf8_encode_cp c;
      rest ← utf8_encode_values s';
      Ok (zs ++ rest)
  end.

Definition utf8_encode (s : str) : result bytes :=
  zs ← utf8_encode_values s; Ok (byte_of_Z <$> (zs : list Z)).

Definition continuation (z : Z) : bool := (0x80 <=? z) && (z <? 0xC0).

(** Decoding of a sequence of byte values.  Overlong forms, surrogates,
    values above [0x10FFFF], stray continuation bytes and truncated
    sequences are errors. *)
Fixpoint utf8_decode_values (zs : list Z) : result str :=
  match zs with
  | [] => Ok []
  | z0 :: r0 =>
      if z0 <? 0x80 then
        s ← utf8_decode_values r0; Ok (z0 :: s)
      else if z0 <? 0xC2 then Raise UnicodeDecodeError
      else if z0 <? 0xE0 then
        match r0 with
        | z1 :: r1 =>
            if continuation z1 then
              s ← utf8_decode_values r1;
              Ok ((z0 - 0xC0) * 64 + (z1 - 0x80) :: s)
            else Raise UnicodeDecodeError
        | _ => Raise UnicodeDecodeError
        end
      else if z0 <? 0xF0 then
        match r0 with
        | z1 :: z2 :: r2 =>
            let c := (z0 - 0xE0) * 4096 + (z1 - 0x80) * 64 + (z2 - 0x80) in
            if continuation z1 && continuation z2
               && (0x800 <=? c) && negb ((0xD800 <=? c) && (c <=? 0xDFFF))
            then s ← utf8_decode_values r2; Ok (c :: s)
            else Raise UnicodeDecodeError
        | _ => Raise UnicodeDecodeError
        end
      else if z0 <? 0xF5 then
        match r0 with
        | z1 :: z2 :: z3 :: r3 =>
            let c := (z0 - 0xF0) * 262144 + (z1 - 0x80) * 4096
                     + (z2 - 0x80) * 64 + (z3 - 0x80) in
            if continuation z1 && continuation z2 && continuation z3
               && (0x10000 <=? c) && (c <? 0x110000)
            then s ← utf8_decode_values r3; Ok (c :: s)
            else Raise UnicodeDecodeError
        | _ => Raise UnicodeDecodeError
        end
      else Raise UnicodeDecodeError
  end.

Definition utf8_decode (data : bytes) : result str :=
  utf8_decode_values (byte_to_Z <$> data).

(** ** format.py, continued *)

Definition encode_kv (timestamp : Z) (key value : str) : result (Z * bytes) :=
  key_bytes ← utf8_encode key;
  value_bytes ← utf8_encode value;
  header ← encode_header timestamp (len key_bytes) (len value_bytes);
  let result := header ++ key_bytes ++ value_bytes in
  Ok (len result, result).

Definition decode_kv (data : bytes) : result (Z * str * str) :=
  let key_start := 3 * 4 in
  _ ← assert (key_start <=? len data);
  '(timestamp, key_size, value_size) ← decode_header (slice data 0 key_start);
  let value_start := key_start + key_size in
  _ ← assert (len data =? value_start + value_size);
  key ← utf8_decode (slice data key_start value_start);
  value ← utf8_decode (slice data value_start (value_start + value_size));
  Ok (timestamp, key, value).

(** ** Files

    A read handle on a file: the bytes of the file and the position of the
    handle.  [read(n)] returns at most [n] bytes from the position on, all
    of them when [n] is negative, and advances the position by what it
    returned. *)

Record reader : Type := { content : bytes; pos : Z }.

Definition open_rb (data : bytes) : reader := {| content := data; pos := 0 |}.

Definition tell (f : reader) : Z := pos f.

Definition seek (f : reader) (offset : Z) : reader :=
  {| content := content f; pos := offset |}.

Definition read (f : reader) (n : Z) : bytes * reader :=
  let rest := drop (Z.to_nat (pos f)) (content f) in
  let buf := if n <? 0 then rest
             else take (Z.to_nat (Z.min n (len rest))) rest in
  (buf, {| content := content f; pos := pos f + len buf |}).

(** Bytes between the position of the handle and the end of the file. *)
Definition remaining (f : reader) : nat :=
  Z.to_nat (len (content f) - pos f).

(** ** disk_store.py *)

Definition read_serialised_header (a_file : reader)
  : result (option (bytes * Z * Z * Z) * reader) :=
  let '(header_buf, a_file) := read a_file 12 in
  if len header_buf <? 12 then Ok (None, a_file)
  else
    '(timestamp, key_size, value_size) ← decode_header header_buf;
    Ok (Some (header_buf, timestamp, key_size, value_size), a_file).

(** The engine: [file] is the content of the file named [file_name], which
    every handle of the engine works on; [mapping] is the KeyDir; [writer]
    is the position of the append handle, [None] once it is closed.  The
    attribute [header_buf] is set to [None] and never read. *)
Record DiskStorage : Type := {
  file : bytes;
  mapping : gmap str Z;
  writer : option Z
}.

(** The body of the loop of [_load_existing]: [None] at the end of the log,
    otherwise the key of the record read and the handle after it. *)
Definition load_record (a_file : reader) : result (option (str * reader)) :=
  '(header, a_file) ← read_serialised_header a_file;
  match header with
  | None => Ok None
  | Some (header_buf, timestamp, key_size, value_size) =>
      let '(tail_buf, a_file) := read a_file (key_size + value_size) in
      '(timestamp, key, value) ← decode_kv (header_buf ++ tail_buf);
      Ok (Some (key, a_file))
  end.

(** The loop of [_load_existing].  It ends because every record read moves
    the handle at least 12 bytes towards the end of the file. *)
Equations? load_loop (a_file : reader) (mapping : gmap str Z)
  : result (gmap str Z) by wf (remaining a_file) lt :=
  load_loop a_file mapping with inspect (load_record a_file) := {
    | exist _ (Raise e) _ => Raise e
    | exist _ (Ok None) _ => Ok mapping
    | exist _ (Ok (Some (key, a_file'))) H =>
        let offset := tell a_file in
        load_loop a_file' (<[key := offset]> mapping) }.
Proof.
  clear load_loop. revert H. unfold load_record, read_serialised_header, read, remaining.
  cbn [content pos]. change (12 <? 0) with false. cbv iota.
  destruct (len _ <? 12) eqn:Hlen; cbn [mbind result_bind]; [discriminate|].
  apply Z.ltb_ge in Hlen. unfold len in Hlen.
  rewrite length_take, length_drop in Hlen.
  destruct (decode_header _) as [[[ts ks] vs]|]; cbn [mbind result_bind];
    [|discriminate].
  destruct (decode_kv _) as [[[? ?] ?]|]; cbn [mbind result_bind];
    [|discriminate].
  intros [= _ <-]. cbn [content pos].
  destruct (ks + vs <? 0); unfold len;
    rewrite ?length_take, ?length_drop; lia.
Qed.

Definition _load_existing (data : bytes) : result (gmap str Z) :=
  load_loop (open_rb data) ∅.

(** [DiskStorage(file_name)]: [existing] is the content of the file when
    there is one.  Opening the writer in append mode creates the file. *)
Definition __init__ (existing : option bytes) : result DiskStorage :=
  mapping ← match existing with
            | Some data => _load_existing data
            | None => Ok ∅
            end;
  let data := default [] existing in
  Ok {| file := data; mapping := mapping; writer := Some (len data) |}.

(** [self.writer.tell()] *)
Definition writer_tell (self : DiskStorage) : result Z :=
  match writer self with
  | Some p => Ok p
  | None => Raise ValueError
  end.

(** [set]: [now] is [int(datetime.datetime.now().timestamp())].  The writer
    is in append mode: the bytes go to the end of the file, wherever the
    handle was, and the handle is at the end afterwards. *)
Definition set (now : Z) (key value : str) (self : DiskStorage)
  : result DiskStorage :=
  let timestamp := now in
  '(buf_size, buf) ← encode_kv timestamp key value;
  offset ← writer_tell self;
  let file' := file self ++ buf in
  Ok {| file := file';
        mapping := <[key := offset]> (mapping self);
        writer := Some (len file') |}.

Definition get (key : str) (self : DiskStorage) : result str :=
  match mapping self !! key with
  | None => Ok []
  | Some offset =>
      let a_file := seek (open_rb (file self)) offset in
      '(header, a_file) ← read_serialised_header a_file;
      match header with
      | None => Raise AssertionError
      | Some (header_buf, timestamp, key_size, value_size) =>
          let '(tail_buf, a_file) := read a_file (key_size + value_size) in
          '(timestamp, key, value) ← decode_kv (header_buf ++ tail_buf);
          Ok value
      end
  end.

Definition close (self : DiskStorage) : DiskStorage :=
  {| file := file self; mapping := mapping self; writer := None |}.

(** [disk[key] = value] and [disk[item]]. *)
Definition __setitem__ (now : Z) (key value : str) (self : DiskStorage)
  : result DiskStorage :=
  set now key value self.

Definition __getitem__ (item : str) (self : DiskStorage) : result str :=
  get item self.

(** A Python string literal of ASCII characters. *)
Definition py (s : string) : str :=
  (fun a => Z.of_N (Ascii.N_of_ascii a)) <$> String.list_ascii_of_string s.

(** ** States of the engine *)

(** The engines a program can hold: built by [DiskStorage(file_name)] and
    then only written through [set], the writer still open. *)
Inductive Ready : DiskStorage -> Prop :=
| Ready_init existing self :
    __init__ existing = Ok self -> Ready self
| Ready_set now key value self self' :
    Ready self -> set now key value self = Ok self' -> Ready self'.

(** A sequence of [set] calls, each with its clock reading. *)
Fixpoint set_all (ops : list (Z * str * str)) (self : DiskStorage)
  : result DiskStorage :=
  match ops with
  | [] => Ok self
  | (now, key, value) :: ops' =>
      self' ← set now key value self; set_all ops' self'
  end.

(** The value of the most recent write of [key] in [ops], if there is one. *)
Fixpoint last_value (key : str) (ops : list (Z * str * str)) : option str :=
  match ops with
  | [] => None
  | (_, k, v) :: ops' =>
      match last_value key ops' with
      | Some v' => Some v'
      | None => if decide (k = key) then Some v else None
      end
  end.

(** A log of complete records: the concatenation of byte strings that
    [decode_kv] accepts, each listed with the key it holds. *)
Definition is_record (key : str) (rec : bytes) : Prop :=
  exists timestamp value, decode_kv rec = Ok (timestamp, key, value).

Definition log_of (entries : list (str * bytes)) : bytes :=
  concat (snd <$> entries).

Definition complete_records (entries : list (str * bytes)) : Prop :=
  Forall (fun e => is_record (fst e) (snd e)) entries.

(** The index of a log whose first record is at [offset]: each key with the
    offset of its last record. *)
Fixpoint index_from (offset : Z) (entries : list (str * bytes))
  (mapping : gmap str Z) : gmap str Z :=
  match entries with
  | [] => mapping
  | (key, rec) :: entries' =>
      index_from (offset + len rec) entries' (<[key := offset]> mapping)
  end.

(** ** Invariants of the engine *)

(** [rec] lies in [data] at [offset]. *)
Definition record_at (data : bytes) (offset : Z) (rec : bytes) : Prop :=
  exists pre post, data = pre ++ rec ++ post /\ offset = len pre.

(** Every offset of the index is the offset of a complete record of the
    file that holds the key it is listed under. *)
Definition index_valid (data : bytes) (mapping : gmap str Z) : Prop :=
  forall key offset, mapping !! key = Some offset ->
    exists rec, record_at data offset rec /\ is_record key rec.

(** What holds of every Ready engine: the writer is at the end of the file
    and the index is valid. *)
Definition well_formed (self : DiskStorage) : Prop :=
  writer self = Some (len (file self))
  /\ index_valid (file self) (mapping self).

(** The engine over a log of complete records, indexed from offset 0. *)
Definition indexed (self : DiskStorage) (entries : list (str * bytes)) : Prop :=
  complete_records entries
  /\ file self = log_of entries
  /\ mapping self = index_from 0 entries ∅
  /\ writer self = Some (len (file self)).

(** The engine on a file that did not exist. *)
Definition fresh : DiskStorage :=
  {| file := []; mapping := ∅; writer := Some 0 |}.

(** A log of two records for the key "k", values "old" and "new". *)
Definition two_writes : list (str * bytes) :=
  [(py "k", [x00;x00;x00;x01; x00;x00;x00;x01; x00;x00;x00;x03;
             x6b; x6f; x6c; x64]);
   (py "k", [x00;x00;x00;x02; x00;x00;x00;x01; x00;x00;x00;x03;
             x6b; x6e; x65; x77])].

(** * Auxiliary lemmas *)

(** ** Basic facts on bytes *)

Lemma byte_to_Z_range b : 0 <= byte_to_Z b < 256.
Proof.
  unfold byte_to_Z. pose proof (Byte.to_N_bounded b). lia.
Qed.

Lemma byte_to_of_Z z : 0 <= z < 256 -> byte_to_Z (byte_of_Z z) = z.
Proof.
  intros Hz. unfold byte_to_Z, byte_of_Z.
  rewrite Z.mod_small by lia.
  destruct (Byte.of_N (Z.to_N z)) as [b|] eqn:E.
  - apply Byte.to_of_N in E. lia.
  - apply Byte.of_N_None_iff in E. lia.
Qed.

Lemma byte_to_of_Z_mod z : byte_to_Z (byte_of_Z z) = z mod 256.
Proof.
  assert (H : byte_of_Z z = byte_of_Z (z mod 256)).
  { unfold byte_of_Z. now rewrite Z.mod_mod by lia. }
  rewrite H. apply byte_to_of_Z. apply Z.mod_pos_bound. lia.
Qed.

Lemma byte_of_to_Z b : byte_of_Z (byte_to_Z b) = b.
Proof.
  unfold byte_of_Z. pose proof (byte_to_Z_range b).
  rewrite Z.mod_small by lia. unfold byte_to_Z.
  rewrite N2Z.id, Byte.of_to_N. reflexivity.
Qed.

Lemma unpack_uint32_range b0 b1 b2 b3 :
  0 <= unpack_uint32 b0 b1 b2 b3 < uint32_max.
Proof.
  unfold unpack_uint32, uint32_max.
  pose proof (byte_to_Z_range b0). pose proof (byte_to_Z_range b1).
  pose proof (byte_to_Z_range b2). pose proof (byte_to_Z_range b3).
  change (2 ^ 32) with 4294967296. lia.
Qed.

Lemma pack_unpack_uint32 v :
  0 <= v < uint32_max ->
  exists b0 b1 b2 b3,
    pack_uint32 v = Ok [b0; b1; b2; b3] /\ unpack_uint32 b0 b1 b2 b3 = v.
Proof.
  intros Hv. unfold pack_uint32.
  assert (E : (0 <=? v) && (v <? uint32_max) = true).
  { apply andb_true_iff. split; [apply Z.leb_le | apply Z.ltb_lt]; lia. }
  rewrite E. do 4 eexists. split; [reflexivity|].
  unfold unpack_uint32. rewrite !byte_to_of_Z_mod.
  unfold uint32_max in Hv. change (2 ^ 32) with 4294967296 in Hv.
  Z.to_euclidean_division_equations. lia.
Qed.

(** ** The result monad and the header *)

Lemma bind_Ok {A B} (r : result A) (k : A -> result B) b :
  r ≫= k = Ok b <-> exists a, r = Ok a /\ k a = Ok b.
Proof.
  destruct r as [a|e]; cbn; split.
  - eauto.
  - intros (? & [= <-] & ?). done.
  - discriminate.
  - intros (? & [=] & _).
Qed.

Lemma assert_Ok b : assert b = Ok tt <-> b = true.
Proof. destruct b; cbn; split; congruence. Qed.

Lemma pack_uint32_Ok v bs :
  pack_uint32 v = Ok bs -> 0 <= v < uint32_max /\ length bs = 4%nat.
Proof.
  unfold pack_uint32.
  destruct ((0 <=? v) && (v <? uint32_max)) eqn:E; [|discriminate].
  apply andb_true_iff in E as [?%Z.leb_le ?%Z.ltb_lt].
  intros [= <-]. split; [lia | reflexivity].
Qed.

Lemma pack_uint32_Raise v :
  ~ (0 <= v < uint32_max) -> pack_uint32 v = Raise StructError.
Proof.
  intros H. unfold pack_uint32.
  destruct ((0 <=? v) && (v <? uint32_max)) eqn:E; [|done].
  apply andb_true_iff in E as [?%Z.leb_le ?%Z.ltb_lt]. lia.
Qed.

Lemma encode_header_decode a b c :
  0 <= a < uint32_max -> 0 <= b < uint32_max -> 0 <= c < uint32_max ->
  exists header,
    encode_header a b c = Ok header /\ length header = 12%nat
    /\ decode_header header = Ok (a, b, c).
Proof.
  intros Ha Hb Hc.
  destruct (pack_unpack_uint32 a Ha) as (a0 & a1 & a2 & a3 & Ea & Ua).
  destruct (pack_unpack_uint32 b Hb) as (b0 & b1 & b2 & b3 & Eb & Ub).
  destruct (pack_unpack_uint32 c Hc) as (c0 & c1 & c2 & c3 & Ec & Uc).
  unfold encode_header, struct_pack_III. rewrite Ea, Eb, Ec. cbn.
  eexists. split; [reflexivity|]. split; [reflexivity|].
  unfold decode_header, struct_unpack_III. now rewrite Ua, Ub, Uc.
Qed.

Lemma encode_header_Ok a b c header :
  encode_header a b c = Ok header ->
  0 <= a < uint32_max /\ 0 <= b < uint32_max /\ 0 <= c < uint32_max.
Proof.
  unfold encode_header, struct_pack_III.
  intros (x & Hx & (y & Hy & (z & Hz & _)%bind_Ok)%bind_Ok)%bind_Ok.
  apply pack_uint32_Ok in Hx, Hy, Hz. tauto.
Qed.

Lemma decode_header_length data :
  length data = 12%nat ->
  exists timestamp key_size value_size,
    decode_header data = Ok (timestamp, key_size, value_size)
    /\ 0 <= timestamp < uint32_max
    /\ 0 <= key_size < uint32_max
    /\ 0 <= value_size < uint32_max.
Proof.
  intros H.
  do 13 (destruct data as [|? data]; try discriminate H).
  cbn. do 3 eexists. split; [reflexivity|].
  repeat split; apply unpack_uint32_range.
Qed.

Lemma decode_header_range data timestamp key_size value_size :
  decode_header data = Ok (timestamp, key_size, value_size) ->
  0 <= timestamp < uint32_max
  /\ 0 <= key_size < uint32_max
  /\ 0 <= value_size < uint32_max.
Proof.
  unfold decode_header, struct_unpack_III.
  do 13 (destruct data as [|? data]; try discriminate).
  intros [= <- <- <-]. repeat split; apply unpack_uint32_range.
Qed.

Lemma decode_header_Ok data r :
  decode_header data = Ok r -> length data = 12%nat.
Proof.
  unfold decode_header, struct_unpack_III.
  do 13 (destruct data as [|? data]; try discriminate). reflexivity.
Qed.

Lemma decode_header_other_length data :
  length data ≠ 12%nat -> decode_header data = Raise StructError.
Proof.
  intros H. destruct (decode_header data) as [r|e] eqn:E.
  - apply decode_header_Ok in E. done.
  - unfold decode_header, struct_unpack_III in E.
    do 13 (destruct data as [|? data]; try congruence).
Qed.

(** ** UTF-8 *)

Ltac bool_to_Z :=
  repeat match goal with
  | H : _ && _ = true |- _ => apply andb_true_iff in H as [? ?]
  | H : _ && _ = false |- _ => apply andb_false_iff in H
  | H : (_ <? _) = true |- _ => apply Z.ltb_lt in H
  | H : (_ <? _) = false |- _ => apply Z.ltb_ge in H
  | H : (_ <=? _) = true |- _ => apply Z.leb_le in H
  | H : (_ <=? _) = false |- _ => apply Z.leb_gt in H
  end.

Ltac div_lia := Z.to_euclidean_division_equations; lia.

(** Settle the boolean test [b] by arithmetic. *)
Ltac settle b :=
  let E := fresh "E" in
  destruct b eqn:E; bool_to_Z;
  try (exfalso; repeat match goal with H : _ \/ _ |- _ => destruct H end; div_lia).

Lemma utf8_encode_cp_range c zs :
  utf8_encode_cp c = Ok zs -> Forall (fun z => 0 <= z < 256) zs.
Proof.
  unfold utf8_encode_cp.
  repeat match goal with
  | |- context [if ?b then _ else _] => destruct b eqn:?
  end; intros [= <-]; bool_to_Z; repeat constructor; div_lia.
Qed.

Lemma utf8_encode_cp_length c zs :
  utf8_encode_cp c = Ok zs -> (1 <= length zs <= 4)%nat.
Proof.
  unfold utf8_encode_cp.
  repeat match goal with
  | |- context [if ?b then _ else _] => destruct b eqn:?
  end; intros [= <-]; cbn; lia.
Qed.

Lemma utf8_decode_encode_cp c zs rest :
  utf8_encode_cp c = Ok zs ->
  utf8_decode_values (zs ++ rest) = (s ← utf8_decode_values rest; Ok (c :: s)).
Proof.
  unfold utf8_encode_cp.
  destruct (c <? 0) eqn:E0; [discriminate|].
  destruct (c <? 0x80) eqn:E1.
  { intros [= <-]. cbn [app utf8_decode_values]. now rewrite E1. }
  destruct (c <? 0x800) eqn:E2.
  { intros [= <-]. cbn [app utf8_decode_values]. bool_to_Z.
    settle (0xC0 + c / 64 <? 0x80). settle (0xC0 + c / 64 <? 0xC2).
    settle (0xC0 + c / 64 <? 0xE0). unfold continuation.
    settle ((0x80 <=? 0x80 + c mod 64) && (0x80 + c mod 64 <? 0xC0)).
    replace ((0xC0 + c / 64 - 0xC0) * 64 + (0x80 + c mod 64 - 0x80)) with c
      by div_lia.
    reflexivity. }
  destruct (c <? 0x10000) eqn:E3.
  { destruct ((0xD800 <=? c) && (c <=? 0xDFFF)) eqn:E4; [discriminate|].
    intros [= <-]. cbn [app utf8_decode_values]. bool_to_Z.
    settle (0xE0 + c / 4096 <? 0x80). settle (0xE0 + c / 4096 <? 0xC2).
    settle (0xE0 + c / 4096 <? 0xE0). settle (0xE0 + c / 4096 <? 0xF0).
    cbv zeta.
    replace ((0xE0 + c / 4096 - 0xE0) * 4096 + (0x80 + (c / 64) mod 64 - 0x80) * 64
             + (0x80 + c mod 64 - 0x80)) with c by div_lia.
    unfold continuation.
    settle ((0x80 <=? 0x80 + (c / 64) mod 64) && (0x80 + (c / 64) mod 64 <? 0xC0)).
    settle ((0x80 <=? 0x80 + c mod 64) && (0x80 + c mod 64 <? 0xC0)).
    settle (0x800 <=? c).
    settle ((0xD800 <=? c) && (c <=? 0xDFFF)). reflexivity. }
  destruct (c <? 0x110000) eqn:E5; [|discriminate].
  intros [= <-]. cbn [app utf8_decode_values]. bool_to_Z.
  settle (0xF0 + c / 262144 <? 0x80). settle (0xF0 + c / 262144 <? 0xC2).
  settle (0xF0 + c / 262144 <? 0xE0). settle (0xF0 + c / 262144 <? 0xF0).
  settle (0xF0 + c / 262144 <? 0xF5).
  cbv zeta.
  replace ((0xF0 + c / 262144 - 0xF0) * 262144
           + (0x80 + (c / 4096) mod 64 - 0x80) * 4096
           + (0x80 + (c / 64) mod 64 - 0x80) * 64
           + (0x80 + c mod 64 - 0x80)) with c by div_lia.
  unfold continuation.
  settle ((0x80 <=? 0x80 + (c / 4096) mod 64) && (0x80 + (c / 4096) mod 64 <? 0xC0)).
  settle ((0x80 <=? 0x80 + (c / 64) mod 64) && (0x80 + (c / 64) mod 64 <? 0xC0)).
  settle ((0x80 <=? 0x80 + c mod 64) && (0x80 + c mod 64 <? 0xC0)).
  settle (0x10000 <=? c). settle (c <? 0x110000). reflexivity.
Qed.

Lemma utf8_decode_encode_values s zs :
  utf8_encode_values s = Ok zs ->
  utf8_decode_values zs = Ok s /\ Forall (fun z => 0 <= z < 256) zs.
Proof.
  revert zs. induction s as [|c s IH]; intros zs; cbn.
  { intros [= <-]. split; [reflexivity | constructor]. }
  intros (z1 & Hc & (z2 & Hs & [= <-])%bind_Ok)%bind_Ok.
  destruct (IH _ Hs) as [IH1 IH2]. split.
  - rewrite (utf8_decode_encode_cp _ _ _ Hc), IH1. reflexivity.
  - apply Forall_app. split; [eapply utf8_encode_cp_range; eauto | done].
Qed.

Lemma fmap_byte_to_of_Z zs :
  Forall (fun z => 0 <= z < 256) zs -> byte_to_Z <$> (byte_of_Z <$> zs) = zs.
Proof.
  induction 1 as [|z zs Hz _ IH]; cbn; [done|].
  now rewrite byte_to_of_Z, IH.
Qed.

Lemma utf8_decode_encode s data :
  utf8_encode s = Ok data -> utf8_decode data = Ok s.
Proof.
  unfold utf8_encode, utf8_decode.
  intros (zs & Hzs & [= <-])%bind_Ok.
  apply utf8_decode_encode_values in Hzs as [Hd Hr].
  now rewrite fmap_byte_to_of_Z.
Qed.

(** The model on known encodings: two, three and four byte forms, and what
    the strict codec refuses. *)
Example utf8_encode_two_bytes : utf8_encode [0xE9] = Ok [xc3; xa9].
Proof. reflexivity. Qed.

Example utf8_encode_three_bytes : utf8_encode [0x20AC] = Ok [xe2; x82; xac].
Proof. reflexivity. Qed.

Example utf8_encode_four_bytes :
  utf8_encode [0x1F600] = Ok [xf0; x9f; x98; x80].
Proof. reflexivity. Qed.

Example utf8_encode_surrogate : utf8_encode [0xD800] = Raise UnicodeEncodeError.
Proof. reflexivity. Qed.

Example utf8_decode_overlong : utf8_decode [xc0; x80] = Raise UnicodeDecodeError.
Proof. reflexivity. Qed.

Example utf8_decode_surrogate :
  utf8_decode [xed; xa0; x80] = Raise UnicodeDecodeError.
Proof. reflexivity. Qed.

Example utf8_decode_last_code_point :
  utf8_decode [xf4; x8f; xbf; xbf] = Ok [0x10FFFF].
Proof. reflexivity. Qed.

Example utf8_decode_above_range :
  utf8_decode [xf4; x90; x80; x80] = Raise UnicodeDecodeError.
Proof. reflexivity. Qed.

Example utf8_decode_truncated : utf8_decode [xe2; x82] = Raise UnicodeDecodeError.
Proof. reflexivity. Qed.

Example encode_header_example :
  encode_header 1700000000 6 11
  = Ok [x65; x53; xf1; x00; x00; x00; x00; x06; x00; x00; x00; x0b].
Proof. reflexivity. Qed.

Example encode_header_out_of_range :
  encode_header 4294967296 0 0 = Raise StructError
  /\ encode_header (-1) 0 0 = Raise StructError.
Proof. split; reflexivity. Qed.

(** ** Lengths and slices *)

Lemma len_nonneg {A} (l : list A) : 0 <= len l.
Proof. unfold len. lia. Qed.

Lemma len_app {A} (l1 l2 : list A) : len (l1 ++ l2) = len l1 + len l2.
Proof. unfold len. rewrite length_app. lia. Qed.

Lemma slice_take_drop {A} (data : list A) lo hi :
  0 <= lo <= hi -> hi <= len data ->
  slice data lo hi = take (Z.to_nat (hi - lo)) (drop (Z.to_nat lo) data).
Proof.
  intros H1 H2. unfold slice, slice_index.
  destruct (lo <? 0) eqn:E1; [apply Z.ltb_lt in E1; lia|].
  destruct (hi <? 0) eqn:E2; [apply Z.ltb_lt in E2; lia|].
  now rewrite !Z.min_l by lia.
Qed.

Lemma slice_middle {A} (pre mid post : list A) :
  slice (pre ++ mid ++ post) (len pre) (len pre + len mid) = mid.
Proof.
  pose proof (len_nonneg pre). pose proof (len_nonneg mid).
  pose proof (len_nonneg post).
  rewrite slice_take_drop by (rewrite ?len_app; lia).
  replace (Z.to_nat (len pre)) with (length pre) by (unfold len; lia).
  rewrite drop_app_length.
  replace (Z.to_nat (len pre + len mid - len pre)) with (length mid)
    by (unfold len; lia).
  apply take_app_length.
Qed.

Lemma slice_head {A} (data : list A) n :
  0 <= n <= len data -> slice data 0 n = take (Z.to_nat n) data.
Proof.
  intros H. rewrite slice_take_drop by lia.
  now rewrite Z.sub_0_r.
Qed.

(** ** [decode_kv] *)

Lemma decode_kv_Ok data timestamp key value :
  decode_kv data = Ok (timestamp, key, value) <->
  exists key_size value_size,
    decode_header (take 12 data) = Ok (timestamp, key_size, value_size)
    /\ len data = 12 + key_size + value_size
    /\ utf8_decode (slice data 12 (12 + key_size)) = Ok key
    /\ utf8_decode (slice data (12 + key_size) (12 + key_size + value_size))
       = Ok value.
Proof.
  unfold decode_kv. change (3 * 4) with 12. split.
  - intros ([] & Hlen%assert_Ok%Z.leb_le & H)%bind_Ok.
    rewrite slice_head in H by lia. change (Z.to_nat 12) with 12%nat in H.
    apply bind_Ok in H as ([[ts ks] vs] & Hh & H).
    apply bind_Ok in H as ([] & Hl%assert_Ok%Z.eqb_eq & H).
    apply bind_Ok in H as (k & Hk & H).
    apply bind_Ok in H as (v & Hv & [= <- <- <-]).
    exists ks, vs. done.
  - intros (ks & vs & Hh & Hl & Hk & Hv).
    assert (Hks : length (take 12 data) = 12%nat)
      by (eapply decode_header_Ok; eauto).
    rewrite length_take in Hks.
    assert (H12 : 12 <= len data) by (unfold len; lia).
    assert (E1 : (12 <=? len data) = true) by now apply Z.leb_le.
    rewrite E1. cbn [assert mbind result_bind].
    rewrite slice_head by lia. change (Z.to_nat 12) with 12%nat.
    rewrite Hh. cbn [mbind result_bind].
    assert (E2 : (len data =? 12 + ks + vs) = true) by now apply Z.eqb_eq.
    rewrite E2. cbn [assert mbind result_bind].
    rewrite Hk. cbn [mbind result_bind].
    rewrite Hv. reflexivity.
Qed.

Lemma decode_kv_length data r : decode_kv data = Ok r -> 12 <= len data.
Proof.
  destruct r as [[ts k] v].
  intros (ks & vs & Hh & _)%decode_kv_Ok.
  apply decode_header_Ok in Hh. rewrite length_take in Hh.
  unfold len. lia.
Qed.

(** ** [encode_kv] *)

Lemma encode_kv_Ok timestamp key value n buf :
  encode_kv timestamp key value = Ok (n, buf) <->
  exists key_bytes value_bytes header,
    utf8_encode key = Ok key_bytes
    /\ utf8_encode value = Ok value_bytes
    /\ encode_header timestamp (len key_bytes) (len value_bytes) = Ok header
    /\ buf = header ++ key_bytes ++ value_bytes
    /\ n = len buf.
Proof.
  unfold encode_kv. split.
  - intros (kb & Hk & (vb & Hv & (h & Hh & [= <- <-])%bind_Ok)%bind_Ok)%bind_Ok.
    exists kb, vb, h. done.
  - intros (kb & vb & h & -> & -> & Hh & -> & ->). cbn.
    rewrite Hh. reflexivity.
Qed.

Lemma encode_kv_succeeds timestamp key value key_bytes value_bytes :
  0 <= timestamp < uint32_max ->
  utf8_encode key = Ok key_bytes -> utf8_encode value = Ok value_bytes ->
  len key_bytes < uint32_max -> len value_bytes < uint32_max ->
  exists header,
    encode_header timestamp (len key_bytes) (len value_bytes) = Ok header
    /\ encode_kv timestamp key value
       = Ok (len (header ++ key_bytes ++ value_bytes),
             header ++ key_bytes ++ value_bytes).
Proof.
  intros Ht Hk Hv Hkl Hvl.
  pose proof (len_nonneg key_bytes). pose proof (len_nonneg value_bytes).
  destruct (encode_header_decode timestamp (len key_bytes) (len value_bytes))
    as (h & Hh & _); [lia..|].
  exists h. split; [done|]. apply encode_kv_Ok. exists key_bytes, value_bytes, h. done.
Qed.

Lemma decode_encode_kv timestamp key value n buf :
  encode_kv timestamp key value = Ok (n, buf) ->
  decode_kv buf = Ok (timestamp, key, value).
Proof.
  intros (kb & vb & h & Hk & Hv & Hh & -> & _)%encode_kv_Ok.
  pose proof (encode_header_Ok _ _ _ _ Hh) as (Ht & Hkl & Hvl).
  destruct (encode_header_decode _ _ _ Ht Hkl Hvl) as (h' & Hh' & Hlen & Hdec).
  assert (h' = h) as -> by congruence.
  assert (Hl : len h = 12) by (unfold len; lia).
  apply decode_kv_Ok. exists (len kb), (len vb).
  rewrite take_app_length' by done. split; [done|].
  rewrite !len_app. split; [lia|]. rewrite <- Hl. split.
  - rewrite slice_middle. now apply utf8_decode_encode.
  - rewrite (app_assoc h kb vb), <- len_app.
    rewrite <- (app_nil_r vb) at 1. rewrite slice_middle.
    now apply utf8_decode_encode.
Qed.

(** ** Reading records from a file *)

Lemma record_at_app_r data offset rec more :
  record_at data offset rec -> record_at (data ++ more) offset rec.
Proof.
  intros (pre & post & -> & ->). exists pre, (post ++ more).
  now rewrite <- !app_assoc.
Qed.

Lemma record_at_end data rec : record_at (data ++ rec) (len data) rec.
Proof. exists data, []. now rewrite app_nil_r. Qed.

Lemma record_at_nonneg data offset rec : record_at data offset rec -> 0 <= offset.
Proof. intros (pre & post & _ & ->). apply len_nonneg. Qed.

Lemma read_at pre rest n :
  0 <= n ->
  read {| content := pre ++ rest; pos := len pre |} n
  = (take (Z.to_nat (Z.min n (len rest))) rest,
     {| content := pre ++ rest;
        pos := len pre + len (take (Z.to_nat (Z.min n (len rest))) rest) |}).
Proof.
  intros Hn. unfold read. cbn [content pos].
  assert (E : (n <? 0) = false) by now apply Z.ltb_ge.
  rewrite E.
  replace (Z.to_nat (len pre)) with (length pre) by (unfold len; lia).
  now rewrite drop_app_length.
Qed.

Lemma read_exact pre buf post :
  read {| content := pre ++ buf ++ post; pos := len pre |} (len buf)
  = (buf, {| content := pre ++ buf ++ post; pos := len pre + len buf |}).
Proof.
  rewrite read_at by apply len_nonneg. pose proof (len_nonneg post).
  rewrite len_app, Z.min_l by lia.
  replace (Z.to_nat (len buf)) with (length buf) by (unfold len; lia).
  now rewrite take_app_length.
Qed.

(** A record that [decode_kv] accepts starts with its 12 header bytes. *)
Lemma record_split rec timestamp key value :
  decode_kv rec = Ok (timestamp, key, value) ->
  exists key_size value_size,
    decode_header (take 12 rec) = Ok (timestamp, key_size, value_size)
    /\ len (take 12 rec) = 12
    /\ len (drop 12 rec) = key_size + value_size.
Proof.
  intros (ks & vs & Hh & Hl & _)%decode_kv_Ok. exists ks, vs.
  pose proof (decode_header_Ok _ _ Hh) as H12. split; [done|].
  unfold len in *. rewrite H12, length_drop.
  rewrite length_take in H12. lia.
Qed.

(** Reading at the offset of a complete record: the header, then the rest. *)
Lemma read_serialised_header_at data offset rec timestamp key value :
  record_at data offset rec ->
  decode_kv rec = Ok (timestamp, key, value) ->
  exists key_size value_size,
    read_serialised_header {| content := data; pos := offset |}
    = Ok (Some (take 12 rec, timestamp, key_size, value_size),
          {| content := data; pos := offset + 12 |})
    /\ read {| content := data; pos := offset + 12 |} (key_size + value_size)
       = (drop 12 rec, {| content := data; pos := offset + len rec |}).
Proof.
  intros (pre & post & -> & ->) Hd.
  destruct (record_split _ _ _ _ Hd) as (ks & vs & Hh & H12 & Hrest).
  exists ks, vs.
  assert (Hrec : rec = take 12 rec ++ drop 12 rec) by now rewrite take_drop.
  assert (Hlen : len rec = 12 + (ks + vs)).
  { rewrite Hrec, len_app. lia. }
  split.
  - unfold read_serialised_header.
    rewrite Hrec at 1. rewrite <- (app_assoc (take 12 rec)).
    rewrite <- H12 at 1. rewrite read_exact. rewrite H12.
    change (12 <? 12) with false. cbv iota. rewrite Hh. cbn.
    rewrite (app_assoc (take 12 rec)), take_drop. reflexivity.
  - replace (pre ++ rec ++ post)
      with ((pre ++ take 12 rec) ++ drop 12 rec ++ post)
      by (rewrite <- app_assoc, (app_assoc (take 12 rec)), take_drop; done).
    replace (len pre + 12) with (len (pre ++ take 12 rec))
      by (rewrite len_app; lia).
    rewrite <- Hrest, read_exact. do 2 f_equal.
    rewrite len_app. lia.
Qed.

(** Conversely, what the two reads return when [decode_kv] accepts it is a
    complete record of the file. *)
Lemma read_record_inv f header_buf timestamp key_size value_size f1 tail_buf f2 r :
  0 <= pos f ->
  read_serialised_header f
  = Ok (Some (header_buf, timestamp, key_size, value_size), f1) ->
  read f1 (key_size + value_size) = (tail_buf, f2) ->
  decode_kv (header_buf ++ tail_buf) = Ok r ->
  record_at (content f) (pos f) (header_buf ++ tail_buf)
  /\ f2 = {| content := content f; pos := pos f + len (header_buf ++ tail_buf) |}.
Proof.
  intros Hpos Hh Ht Hd. destruct f as [data p]. cbn [content pos] in *.
  unfold read_serialised_header, read in Hh. cbn [content pos] in Hh.
  change (12 <? 0) with false in Hh. cbv iota in Hh.
  set (rest := drop (Z.to_nat p) data) in *.
  destruct (len (take _ rest) <? 12) eqn:E; [discriminate|].
  apply Z.ltb_ge in E.
  destruct (decode_header _) as [[[ts ks] vs]|] eqn:Hdh; [|discriminate].
  cbn in Hh. injection Hh as <- <- <- <- <-.
  pose proof (decode_header_range _ _ _ _ Hdh) as (_ & Hks & Hvs).
  pose proof (len_nonneg rest) as Hr0.
  assert (H12 : 12 <= len rest).
  { unfold len in E. rewrite length_take in E. unfold len. lia. }
  rewrite Z.min_l in * by lia. change (Z.to_nat 12) with 12%nat in *.
  assert (Hl12 : len (take 12 rest) = 12).
  { unfold len in *. rewrite length_take. lia. }
  rewrite Hl12 in *.
  unfold read in Ht. cbn [content pos] in Ht.
  assert (En : (ks + vs <? 0) = false) by (apply Z.ltb_ge; lia).
  rewrite En in Ht.
  assert (Hrest1 : drop (Z.to_nat (p + 12)) data = drop 12 rest).
  { unfold rest. rewrite drop_drop. f_equal. lia. }
  rewrite Hrest1 in Ht. injection Ht as <- <-.
  set (tail := take _ (drop 12 rest)) in *.
  destruct r as [[ts' k] v].
  apply decode_kv_Ok in Hd as (ks' & vs' & Hh' & Hlen & _).
  rewrite take_app_length' in Hh' by (unfold len in Hl12; lia).
  assert (ts' = ts /\ ks' = ks /\ vs' = vs) as (-> & -> & ->).
  { rewrite Hdh in Hh'. injection Hh' as -> -> ->. done. }
  rewrite len_app, Hl12 in Hlen.
  assert (Hdata : data = take (Z.to_nat p) data ++ (take 12 rest ++ tail)
                         ++ drop (length tail) (drop 12 rest)).
  { rewrite <- (take_drop (Z.to_nat p) data) at 1. f_equal. fold rest.
    rewrite <- (take_drop 12 rest) at 1. rewrite <- app_assoc. f_equal.
    rewrite <- (take_drop (length tail) (drop 12 rest)) at 1. f_equal.
    unfold tail. rewrite length_take.
    f_equal. unfold len. lia. }
  split.
  - eexists _, _. split; [exact Hdata|].
    unfold len in *. rewrite length_take. unfold rest in H12.
    rewrite length_drop in H12. lia.
  - f_equal. rewrite len_app. lia.
Qed.

(** ** [get] and the loop body of [_load_existing] on a complete record *)

Lemma get_at self key offset rec timestamp key' value :
  mapping self !! key = Some offset ->
  record_at (file self) offset rec ->
  decode_kv rec = Ok (timestamp, key', value) ->
  get key self = Ok value.
Proof.
  intros Hm Hr Hd. unfold get. rewrite Hm. unfold seek, open_rb. cbn [content].
  destruct (read_serialised_header_at _ _ _ _ _ _ Hr Hd) as (ks & vs & -> & Ht).
  cbn [mbind result_bind]. rewrite Ht, take_drop, Hd. reflexivity.
Qed.

Lemma get_absent self key : mapping self !! key = None -> get key self = Ok [].
Proof. intros H. unfold get. now rewrite H. Qed.

Lemma load_record_at data offset rec timestamp key value :
  record_at data offset rec ->
  decode_kv rec = Ok (timestamp, key, value) ->
  load_record {| content := data; pos := offset |}
  = Ok (Some (key, {| content := data; pos := offset + len rec |})).
Proof.
  intros Hr Hd. unfold load_record.
  destruct (read_serialised_header_at _ _ _ _ _ _ Hr Hd) as (ks & vs & -> & Ht).
  cbn [mbind result_bind]. rewrite Ht, take_drop, Hd. reflexivity.
Qed.

Lemma load_record_Some f key f' :
  0 <= pos f ->
  load_record f = Ok (Some (key, f')) ->
  exists rec,
    record_at (content f) (pos f) rec /\ is_record key rec
    /\ f' = {| content := content f; pos := pos f + len rec |}.
Proof.
  intros Hpos. unfold load_record.
  intros ([[[[[hb ts] ks] vs]|] f1] & Hh & H)%bind_Ok; [|discriminate].
  destruct (read f1 (ks + vs)) as [tail f2] eqn:Ht.
  apply bind_Ok in H as ([[ts' k] v] & Hd & [= <- <-]).
  destruct (read_record_inv _ _ _ _ _ _ _ _ _ Hpos Hh Ht Hd) as [Hr ->].
  exists (hb ++ tail). split; [done|]. split; [|done]. now exists ts', v.
Qed.

(** Fewer than 12 bytes left: the end of the log. *)
Lemma load_record_short pre tail :
  len tail < 12 ->
  load_record {| content := pre ++ tail; pos := len pre |} = Ok None.
Proof.
  intros H. unfold load_record, read_serialised_header.
  rewrite read_at by lia. pose proof (len_nonneg tail).
  assert (E : (len (take (Z.to_nat (Z.min 12 (len tail))) tail) <? 12) = true).
  { apply Z.ltb_lt. unfold len in *. rewrite length_take. lia. }
  rewrite E. reflexivity.
Qed.

(** ** The loop of [_load_existing] *)

Lemma load_loop_step a_file mapping :
  load_loop a_file mapping
  = match load_record a_file with
    | Raise e => Raise e
    | Ok None => Ok mapping
    | Ok (Some (key, a_file')) =>
        load_loop a_file' (<[key := tell a_file]> mapping)
    end.
Proof.
  simp load_loop. generalize (Logic.inspect (load_record a_file)).
  intros [[[[key a_file']|]|e] H]; symmetry;
    (etransitivity; [rewrite H; reflexivity|]); reflexivity.
Qed.

(** On a log of complete records followed by fewer than 12 bytes the loop
    indexes every record and stops without an error. *)
Lemma load_loop_log entries : forall pre tail mapping,
  complete_records entries -> len tail < 12 ->
  load_loop {| content := pre ++ log_of entries ++ tail; pos := len pre |} mapping
  = Ok (index_from (len pre) entries mapping).
Proof.
  induction entries as [|[key rec] entries IH]; intros pre tail m Hc Ht.
  - rewrite load_loop_step. change (pre ++ log_of [] ++ tail) with (pre ++ tail).
    now rewrite load_record_short.
  - apply Forall_cons in Hc as [(ts & v & Hd) Hc]. cbn [fst snd] in Hd.
    rewrite load_loop_step.
    unfold log_of. cbn [fmap list_fmap concat snd]. fold (log_of entries).
    rewrite <- (app_assoc rec).
    erewrite load_record_at; [|eexists _, _; eauto|exact Hd].
    cbn [tell pos index_from].
    rewrite <- len_app.
    replace (pre ++ rec ++ log_of entries ++ tail)
      with ((pre ++ rec) ++ log_of entries ++ tail) by now rewrite <- app_assoc.
    rewrite IH by done. now rewrite len_app.
Qed.

(** Whatever the file holds, the loop only ever records offsets of complete
    records, each under the key the record holds. *)
Lemma load_loop_valid a_file mapping mapping' :
  0 <= pos a_file ->
  index_valid (content a_file) mapping ->
  load_loop a_file mapping = Ok mapping' ->
  index_valid (content a_file) mapping'.
Proof.
  remember (remaining a_file) as n eqn:Hn.
  revert a_file mapping Hn.
  induction n as [n IH] using lt_wf_ind. intros f m -> Hpos Hv.
  rewrite load_loop_step.
  destruct (load_record f) as [[[key f']|]|e] eqn:Hl; [| |discriminate].
  - destruct (load_record_Some _ _ _ Hpos Hl) as (rec & Hr & Hk & ->).
    pose proof (Hr) as (pre & post & Hc & Hp).
    pose proof (is_record_length := Hk). destruct is_record_length as (ts & v & Hd).
    apply decode_kv_length in Hd.
    intros Hloop.
    set (f' := {| content := content f; pos := pos f + len rec |}) in *.
    assert (Hlt : (remaining f' < remaining f)%nat).
    { unfold remaining, f'. cbn [content pos]. rewrite Hc, Hp, !len_app.
      pose proof (len_nonneg post). pose proof (len_nonneg pre). lia. }
    assert (Hpos' : 0 <= pos f').
    { unfold f'. cbn [pos]. pose proof (len_nonneg rec). lia. }
    apply (IH _ Hlt f' (<[key := tell f]> m) eq_refl Hpos'); [|exact Hloop].
    intros k off. unfold tell, f'. cbn [content]. rewrite lookup_insert.
    destruct (decide (key = k)) as [<-|Hne]; [|apply Hv].
    intros [= <-]. eauto.
  - now intros [= <-].
Qed.

Lemma _load_existing_valid data mapping :
  _load_existing data = Ok mapping -> index_valid data mapping.
Proof.
  unfold _load_existing. intros H.
  apply (load_loop_valid (open_rb data) ∅); [done| |done].
  intros k off. now rewrite lookup_empty.
Qed.

(** ** [__init__] and [set] *)

Lemma __init___Ok existing self :
  __init__ existing = Ok self <->
  exists mapping,
    match existing with
    | Some data => _load_existing data
    | None => Ok ∅
    end = Ok mapping
    /\ self = {| file := default [] existing; mapping := mapping;
                 writer := Some (len (default [] existing)) |}.
Proof.
  unfold __init__. rewrite bind_Ok. split.
  - intros (m & Hm & [= <-]). eauto.
  - intros (m & Hm & ->). eauto.
Qed.

Lemma set_Ok now key value self self' :
  set now key value self = Ok self' <->
  exists n buf offset,
    encode_kv now key value = Ok (n, buf)
    /\ writer self = Some offset
    /\ self' = {| file := file self ++ buf;
                  mapping := <[key := offset]> (mapping self);
                  writer := Some (len (file self ++ buf)) |}.
Proof.
  unfold set, writer_tell. rewrite bind_Ok. split.
  - intros ([n buf] & He & H). apply bind_Ok in H as (off & Hw & [= <-]).
    destruct (writer self) as [p|] eqn:E; [|discriminate].
    injection Hw as ->. exists n, buf, off. done.
  - intros (n & buf & off & He & Hw & ->). exists (n, buf). split; [done|].
    rewrite Hw. reflexivity.
Qed.

Lemma index_valid_app data more mapping :
  index_valid data mapping -> index_valid (data ++ more) mapping.
Proof.
  intros H k off Hk. destruct (H k off Hk) as (rec & Hr & Hrec).
  exists rec. split; [now apply record_at_app_r | done].
Qed.

Lemma __init___well_formed existing self :
  __init__ existing = Ok self -> well_formed self.
Proof.
  intros H. apply __init___Ok in H as (m & Hm & ->).
  split; [reflexivity|]. cbn [file mapping].
  destruct existing as [data|]; cbn [default].
  - now apply _load_existing_valid.
  - injection Hm as <-. intros k off. now rewrite lookup_empty.
Qed.

Lemma set_well_formed now key value self self' :
  well_formed self -> set now key value self = Ok self' -> well_formed self'.
Proof.
  intros [Hw Hv] (n & buf & off & He & Hw' & ->)%set_Ok.
  split; [reflexivity|]. cbn [file mapping].
  assert (off = len (file self)) as -> by congruence.
  intros k o. rewrite lookup_insert.
  destruct (decide (key = k)) as [<-|Hne].
  - intros [= <-]. exists buf. split; [apply record_at_end|].
    exists now, value. eapply decode_encode_kv; eauto.
  - now apply index_valid_app.
Qed.

Lemma Ready_well_formed self : Ready self -> well_formed self.
Proof.
  induction 1 as [existing self H | now key value self self' _ IH H].
  - eapply __init___well_formed; eauto.
  - eapply set_well_formed; eauto.
Qed.

Lemma set_all_well_formed ops : forall self self',
  well_formed self -> set_all ops self = Ok self' -> well_formed self'.
Proof.
  induction ops as [|[[now k] v] ops IH]; intros self self' Hwf; cbn.
  - now intros [= <-].
  - intros (s1 & H1 & H2)%bind_Ok. eapply IH; [|exact H2].
    eapply set_well_formed; eauto.
Qed.

Lemma set_all_Ready ops : forall self self',
  Ready self -> set_all ops self = Ok self' -> Ready self'.
Proof.
  induction ops as [|[[now k] v] ops IH]; intros self self' Hr; cbn.
  - now intros [= <-].
  - intros (s1 & H1 & H2)%bind_Ok. eapply IH; [|exact H2].
    eapply Ready_set; eauto.
Qed.

(** ** Reading back what was written *)

Lemma set_get now key value self self' :
  well_formed self -> set now key value self = Ok self' ->
  get key self' = Ok value.
Proof.
  intros [Hw _] (n & buf & off & He & Hw' & ->)%set_Ok.
  assert (off = len (file self)) as -> by congruence.
  eapply get_at; cbn [file mapping].
  - apply lookup_insert_eq.
  - apply record_at_end.
  - eapply decode_encode_kv; eauto.
Qed.

Lemma set_get_other now key value self self' key' :
  well_formed self -> set now key value self = Ok self' -> key' ≠ key ->
  mapping self' !! key' = mapping self !! key'
  /\ get key' self' = get key' self.
Proof.
  intros [_ Hv] (n & buf & off & He & Hw' & ->)%set_Ok Hne.
  assert (Hm : <[key := off]> (mapping self) !! key' = mapping self !! key')
    by now apply lookup_insert_ne.
  split; [exact Hm|].
  destruct (mapping self !! key') as [o|] eqn:Ho.
  - destruct (Hv _ _ Ho) as (rec & Hr & ts & v & Hd).
    rewrite (get_at self key' o rec ts key' v) by done.
    eapply get_at; cbn [file mapping]; [exact Hm| |exact Hd].
    now apply record_at_app_r.
  - rewrite (get_absent self) by done. now apply get_absent.
Qed.

Lemma set_all_get ops key : forall self self',
  well_formed self -> set_all ops self = Ok self' ->
  get key self' = match last_value key ops with
                  | Some value => Ok value
                  | None => get key self
                  end.
Proof.
  induction ops as [|[[now k] v] ops IH]; intros self self' Hwf; cbn.
  - now intros [= <-].
  - intros (s1 & H1 & H2)%bind_Ok.
    assert (Hwf1 : well_formed s1) by (eapply set_well_formed; eauto).
    rewrite (IH _ _ Hwf1 H2).
    destruct (last_value key ops); [done|].
    destruct (decide (k = key)) as [->|Hne].
    + exact (set_get _ _ _ _ _ Hwf H1).
    + apply (set_get_other _ _ _ _ _ key Hwf H1). congruence.
Qed.

Lemma set_succeeds now key value key_bytes value_bytes self :
  Ready self ->
  0 <= now < uint32_max ->
  utf8_encode key = Ok key_bytes -> utf8_encode value = Ok value_bytes ->
  len key_bytes < uint32_max -> len value_bytes < uint32_max ->
  is_ok (set now key value self).
Proof.
  intros Hr Hn Hk Hv Hkl Hvl.
  destruct (encode_kv_succeeds _ _ _ _ _ Hn Hk Hv Hkl Hvl) as (h & _ & He).
  destruct (Ready_well_formed _ Hr) as [Hw _].
  eexists. apply set_Ok. eauto 10.
Qed.

(** ** Reopening a log of complete records *)

Lemma len_log_of_app es1 es2 :
  log_of (es1 ++ es2) = log_of es1 ++ log_of es2.
Proof. unfold log_of. now rewrite fmap_app, concat_app. Qed.

Lemma index_from_app es : forall offset key rec mapping,
  index_from offset (es ++ [(key, rec)]) mapping
  = <[key := offset + len (log_of es)]> (index_from offset es mapping).
Proof.
  induction es as [|[k r] es IH]; intros off key rec m; cbn [app index_from].
  - unfold log_of. cbn. now rewrite Z.add_0_r.
  - rewrite IH. f_equal. unfold log_of. cbn [fmap list_fmap concat snd].
    rewrite len_app. fold (log_of es). lia.
Qed.

Lemma __init___log entries tail :
  complete_records entries -> len tail < 12 ->
  __init__ (Some (log_of entries ++ tail))
  = Ok {| file := log_of entries ++ tail;
          mapping := index_from 0 entries ∅;
          writer := Some (len (log_of entries ++ tail)) |}.
Proof.
  intros Hc Ht. apply __init___Ok. eexists. split; [|reflexivity].
  unfold _load_existing, open_rb.
  apply (load_loop_log entries [] tail ∅ Hc Ht).
Qed.

Lemma __init___indexed existing self :
  existing = None \/ (exists entries,
    complete_records entries /\ existing = Some (log_of entries)) ->
  __init__ existing = Ok self ->
  exists entries, indexed self entries.
Proof.
  intros [-> | (entries & Hc & ->)] H.
  - exists []. apply __init___Ok in H as (m & [= <-] & ->).
    repeat split. constructor.
  - exists entries. rewrite <- (app_nil_r (log_of entries)) in H.
    rewrite __init___log in H by (done || (cbn; lia)).
    injection H as <-. rewrite app_nil_r. repeat split. done.
Qed.

Lemma set_indexed now key value self self' entries :
  indexed self entries -> set now key value self = Ok self' ->
  exists buf, indexed self' (entries ++ [(key, buf)]).
Proof.
  intros (Hc & Hf & Hm & Hw) (n & buf & off & He & Hw' & ->)%set_Ok.
  assert (off = len (file self)) as -> by congruence.
  exists buf. unfold indexed. cbn [file mapping writer]. repeat split.
  - apply Forall_app. split; [done|]. constructor; [|constructor].
    exists now, value. eapply decode_encode_kv; eauto.
  - rewrite len_log_of_app, Hf. unfold log_of at 3. cbn. now rewrite app_nil_r.
  - rewrite index_from_app, Hm, Hf. now rewrite Z.add_0_l.
Qed.

Lemma set_all_indexed ops : forall self self' entries,
  indexed self entries -> set_all ops self = Ok self' ->
  exists entries', indexed self' entries'.
Proof.
  induction ops as [|[[now k] v] ops IH]; intros self self' entries Hi; cbn.
  - intros [= <-]. eauto.
  - intros (s1 & H1 & H2)%bind_Ok.
    destruct (set_indexed _ _ _ _ _ _ Hi H1) as (buf & Hi1). eauto.
Qed.

Lemma reopen_indexed self entries :
  indexed self entries -> __init__ (Some (file (close self))) = Ok self.
Proof.
  intros (Hc & Hf & Hm & Hw). destruct self as [f m w].
  unfold close. cbn [file mapping writer] in *. subst.
  rewrite <- (app_nil_r (log_of entries)) at 1.
  rewrite __init___log by (done || (cbn; lia)). now rewrite app_nil_r.
Qed.

(** ** Exceptions of [decode_kv], keys of an index *)

Lemma is_ok_Ok {A} (a : A) : is_ok (Ok a).
Proof. now exists a. Qed.

Lemma not_is_ok_Raise {A} e : ~ is_ok (@Raise A e).
Proof. intros [a [=]]. Qed.

(** The only exception of the UTF-8 decoder. *)
Lemma utf8_decode_values_Raise n : forall zs e,
  (length zs <= n)%nat ->
  utf8_decode_values zs = Raise e -> e = UnicodeDecodeError.
Proof.
  induction n as [|n IH]; intros zs e Hn.
  { destruct zs; [discriminate | cbn in Hn; lia]. }
  assert (Hrec : forall r (c : Z), (length r <= n)%nat ->
            (s ← utf8_decode_values r; Ok (c :: s)) = Raise e ->
            e = UnicodeDecodeError).
  { intros r c Hr H. destruct (utf8_decode_values r) eqn:E; [discriminate|].
    injection H as <-. eapply IH; eauto. }
  destruct zs as [|z0 r0]; [discriminate|]. cbn [utf8_decode_values].
  cbn [length] in Hn.
  repeat match goal with
  | |- Raise _ = Raise _ -> _ => intros [= <-]; reflexivity
  | |- (_ ← utf8_decode_values ?r; _) = Raise _ -> _ =>
      apply Hrec; cbn [length] in *; lia
  | |- context [if ?b then _ else _] => destruct b
  | |- context [match ?l with [] => _ | _ :: _ => _ end] =>
      destruct l; cbn [length] in *
  | |- _ => progress cbv zeta
  end.
Qed.

Lemma utf8_decode_Raise data e :
  utf8_decode data = Raise e -> e = UnicodeDecodeError.
Proof. unfold utf8_decode. now apply (utf8_decode_values_Raise _ _ e (le_n _)). Qed.

Lemma decode_kv_short data : len data < 12 -> decode_kv data = Raise AssertionError.
Proof.
  intros H. unfold decode_kv. change (3 * 4) with 12.
  assert (E : (12 <=? len data) = false) by now apply Z.leb_gt.
  now rewrite E.
Qed.

Lemma decode_kv_header data :
  12 <= len data ->
  exists timestamp key_size value_size,
    decode_header (take 12 data) = Ok (timestamp, key_size, value_size)
    /\ 0 <= key_size /\ 0 <= value_size
    /\ decode_kv data =
       (_ ← assert (len data =? 12 + key_size + value_size);
        key ← utf8_decode (slice data 12 (12 + key_size));
        value ← utf8_decode (slice data (12 + key_size)
                                   (12 + key_size + value_size));
        Ok (timestamp, key, value)).
Proof.
  intros H.
  destruct (decode_header_length (take 12 data)) as (ts & ks & vs & Hh & _ & Hk & Hv).
  { rewrite length_take. unfold len in H. lia. }
  exists ts, ks, vs. split; [done|]. split; [lia|]. split; [lia|].
  unfold decode_kv. change (3 * 4) with 12.
  assert (E : (12 <=? len data) = true) by now apply Z.leb_le.
  rewrite E. cbn [assert mbind result_bind].
  rewrite slice_head by lia. change (Z.to_nat 12) with 12%nat.
  rewrite Hh. reflexivity.
Qed.

Lemma dom_index_from entries : forall offset (mapping : gmap str Z),
  dom (index_from offset entries mapping)
  = list_to_set (fst <$> entries) ∪ dom mapping.
Proof.
  induction entries as [|[k r] es IH]; intros off m; cbn [index_from].
  - cbn. now rewrite (left_id_L ∅ (∪)).
  - rewrite IH, dom_insert_L. cbn [fmap list_fmap list_to_set fst].
    rewrite (assoc_L (∪)). f_equal. apply (comm_L (∪)).
Qed.

(** * Properties of the record codec *)

(** C2.  For every timestamp in [0, 2^32) and all strings [key], [value]
    whose UTF-8 encodings have at most 2^32 - 1 bytes each, [encode_kv]
    returns a buffer and [decode_kv] on that buffer returns exactly
    [(timestamp, key, value)]. *)
Theorem decode_encode_round_trip timestamp key value key_bytes value_bytes :
  0 <= timestamp < uint32_max ->
  utf8_encode key = Ok key_bytes ->
  utf8_encode value = Ok value_bytes ->
  len key_bytes <= uint32_max - 1 ->
  len value_bytes <= uint32_max - 1 ->
  exists n buf,
    encode_kv timestamp key value = Ok (n, buf)
    /\ decode_kv buf = Ok (timestamp, key, value).
Proof.
  intros Ht Hk Hv Hkl Hvl.
  destruct (encode_kv_succeeds timestamp key value key_bytes value_bytes)
    as (h & _ & He); [done | done | done | lia | lia |].
  eexists _, _. split; [exact He|]. eapply decode_encode_kv, He.
Qed.

Lemma decode_encode_round_trip_witness :
  exists n buf,
    encode_kv 1700000000 (py "hamlet") (py "shakespeare") = Ok (n, buf)
    /\ decode_kv buf = Ok (1700000000, py "hamlet", py "shakespeare").
Proof.
  apply (decode_encode_round_trip 1700000000 (py "hamlet") (py "shakespeare")
           [x68; x61; x6d; x6c; x65; x74]
           [x73; x68; x61; x6b; x65; x73; x70; x65; x61; x72; x65]).
  - split; [vm_compute; discriminate | vm_compute; reflexivity].
  - vm_compute. reflexivity.
  - vm_compute. reflexivity.
  - vm_compute. discriminate.
  - vm_compute. discriminate.
Defined.

(** C6.  [decode_kv data] succeeds exactly when [data] has
    [12 + key_size + value_size] bytes, the sizes being those of the header
    in its first 12 bytes, and the key and value slices are valid UTF-8.
    A buffer without a full header, or shorter or longer than the header
    says, fails with [AssertionError]; one of the right length with a slice
    that is not valid UTF-8 fails with [UnicodeDecodeError]. *)
Theorem decode_kv_succeeds_iff data :
  (is_ok (decode_kv data) <->
   exists timestamp key_size value_size,
     decode_header (take 12 data) = Ok (timestamp, key_size, value_size)
     /\ len data = 12 + key_size + value_size
     /\ is_ok (utf8_decode (slice data 12 (12 + key_size)))
     /\ is_ok (utf8_decode (slice data (12 + key_size)
                                  (12 + key_size + value_size))))
  /\ (len data < 12 -> decode_kv data = Raise AssertionError)
  /\ (forall timestamp key_size value_size,
        decode_header (take 12 data) = Ok (timestamp, key_size, value_size) ->
        len data ≠ 12 + key_size + value_size ->
        decode_kv data = Raise AssertionError)
  /\ (forall timestamp key_size value_size,
        decode_header (take 12 data) = Ok (timestamp, key_size, value_size) ->
        len data = 12 + key_size + value_size ->
        ~ (is_ok (utf8_decode (slice data 12 (12 + key_size)))
           /\ is_ok (utf8_decode (slice data (12 + key_size)
                                        (12 + key_size + value_size)))) ->
        decode_kv data = Raise UnicodeDecodeError).
Proof.
  split; [|split; [|split]].
  - split.
    + intros [[[ts k] v] (ks & vs & Hh & Hl & Hk & Hv)%decode_kv_Ok].
      exists ts, ks, vs. rewrite Hk, Hv. eauto using is_ok_Ok.
    + intros (ts & ks & vs & Hh & Hl & [k Hk] & [v Hv]).
      exists (ts, k, v). apply decode_kv_Ok. eauto 10.
  - apply decode_kv_short.
  - intros ts ks vs Hh Hl.
    pose proof (decode_header_Ok _ _ Hh) as H12. rewrite length_take in H12.
    destruct (decode_kv_header data) as (ts' & ks' & vs' & Hh' & _ & _ & ->).
    { unfold len. lia. }
    rewrite Hh in Hh'. injection Hh' as <- <- <-.
    assert (E : (len data =? 12 + ks + vs) = false) by now apply Z.eqb_neq.
    now rewrite E.
  - intros ts ks vs Hh Hl Hbad.
    pose proof (decode_header_Ok _ _ Hh) as H12. rewrite length_take in H12.
    destruct (decode_kv_header data) as (ts' & ks' & vs' & Hh' & _ & _ & ->).
    { unfold len. lia. }
    rewrite Hh in Hh'. injection Hh' as <- <- <-.
    assert (E : (len data =? 12 + ks + vs) = true) by now apply Z.eqb_eq.
    rewrite E. cbn [assert mbind result_bind].
    destruct (utf8_decode (slice data 12 _)) as [k|e] eqn:Hk.
    + destruct (utf8_decode (slice data (12 + ks) _)) as [v|e] eqn:Hv.
      * destruct Hbad. split; apply is_ok_Ok.
      * cbn. now rewrite (utf8_decode_Raise _ _ Hv).
    + cbn. now rewrite (utf8_decode_Raise _ _ Hk).
Qed.

Lemma decode_kv_succeeds_iff_witness :
  is_ok (decode_kv [x00;x00;x00;x00; x00;x00;x00;x02; x00;x00;x00;x03;
                    x61; x62; x63; x64; x65])
  /\ decode_kv [x00;x00;x00;x00; x00;x00;x00;x02; x00;x00;x00;x03;
                x61; x62; x63; x64] = Raise AssertionError
  /\ decode_kv [x00;x00;x00;x00; x00;x00;x00;x02; x00;x00;x00;x03;
                x61; xff; x63; x64; x65] = Raise UnicodeDecodeError.
Proof.
  split; [|split].
  - apply (proj1 (decode_kv_succeeds_iff _)).
    exists 0, 2, 3. repeat split.
    + exists [97; 98]. vm_compute. reflexivity.
    + exists [99; 100; 101]. vm_compute. reflexivity.
  - apply (proj1 (proj2 (proj2 (decode_kv_succeeds_iff _))) 0 2 3).
    + vm_compute. reflexivity.
    + vm_compute. discriminate.
  - apply (proj2 (proj2 (proj2 (decode_kv_succeeds_iff _))) 0 2 3).
    + vm_compute. reflexivity.
    + vm_compute. reflexivity.
    + intros [[k Hk] _]. vm_compute in Hk. discriminate Hk.
Defined.

(** C7.  [encode_kv(0, "ab", "cde")] is the 12-byte header with the
    big-endian fields (0, 2, 3) followed by the bytes of "ab" and of "cde";
    in general the buffer is header, key bytes, value bytes, the two sizes
    in the header being the lengths of the UTF-8 encodings: every buffer
    [encode_kv] returns has that layout, and on every timestamp in
    [0, 2^32) and every key and value with UTF-8 encodings shorter than
    2^32 bytes [encode_kv] returns that buffer and its length. *)
Theorem encode_kv_layout :
  encode_kv 0 (py "ab") (py "cde")
  = Ok (17, [x00;x00;x00;x00; x00;x00;x00;x02; x00;x00;x00;x03;
             x61; x62; x63; x64; x65])
  /\ decode_header [x00;x00;x00;x00; x00;x00;x00;x02; x00;x00;x00;x03]
     = Ok (0, 2, 3)
  /\ (forall timestamp key value n buf,
       encode_kv timestamp key value = Ok (n, buf) ->
       exists header key_bytes value_bytes,
         utf8_encode key = Ok key_bytes
         /\ utf8_encode value = Ok value_bytes
         /\ encode_header timestamp (len key_bytes) (len value_bytes)
            = Ok header
         /\ len header = 12
         /\ decode_header header
            = Ok (timestamp, len key_bytes, len value_bytes)
         /\ buf = header ++ key_bytes ++ value_bytes
         /\ n = len buf)
  /\ (forall timestamp key value key_bytes value_bytes,
        0 <= timestamp < 2 ^ 32 ->
        utf8_encode key = Ok key_bytes ->
        utf8_encode value = Ok value_bytes ->
        len key_bytes < 2 ^ 32 -> len value_bytes < 2 ^ 32 ->
        exists header,
          encode_header timestamp (len key_bytes) (len value_bytes)
          = Ok header
          /\ len header = 12
          /\ decode_header header
             = Ok (timestamp, len key_bytes, len value_bytes)
          /\ encode_kv timestamp key value
             = Ok (12 + len key_bytes + len value_bytes,
                   header ++ key_bytes ++ value_bytes)).
Proof.
  split; [vm_compute; reflexivity|]. split; [vm_compute; reflexivity|].
  split.
  - intros ts k v n buf (kb & vb & h & Hk & Hv & Hh & -> & ->)%encode_kv_Ok.
    exists h, kb, vb.
    pose proof (encode_header_Ok _ _ _ _ Hh) as (Ht & Hkl & Hvl).
    destruct (encode_header_decode _ _ _ Ht Hkl Hvl)
      as (h' & Hh' & Hlen & Hdec).
    assert (h' = h) as -> by congruence.
    repeat split; try done. unfold len. lia.
  - intros ts k v kb vb Ht Hk Hv Hkl Hvl.
    pose proof (len_nonneg kb). pose proof (len_nonneg vb).
    destruct (encode_header_decode ts (len kb) (len vb))
      as (h & Hh & Hlen & Hdec); [done | unfold uint32_max; lia..|].
    assert (Hl12 : len h = 12) by (unfold len; lia).
    exists h. repeat split; try done.
    destruct (encode_kv_succeeds ts k v kb vb Ht Hk Hv Hkl Hvl)
      as (h' & Hh' & ->).
    assert (h' = h) as -> by congruence.
    rewrite !len_app, Hl12.
    now replace (12 + (len kb + len vb)) with (12 + len kb + len vb) by lia.
Qed.

Lemma encode_kv_layout_witness :
  (exists header key_bytes value_bytes,
     utf8_encode (py "ab") = Ok key_bytes
     /\ utf8_encode (py "cde") = Ok value_bytes
     /\ encode_header 0 (len key_bytes) (len value_bytes) = Ok header
     /\ len header = 12
     /\ decode_header header = Ok (0, len key_bytes, len value_bytes)
     /\ [x00;x00;x00;x00; x00;x00;x00;x02; x00;x00;x00;x03;
         x61; x62; x63; x64; x65] = header ++ key_bytes ++ value_bytes
     /\ 17 = len [x00;x00;x00;x00; x00;x00;x00;x02; x00;x00;x00;x03;
                  x61; x62; x63; x64; x65])
  /\ (exists header,
        encode_header 1700000000 (len [x6b; xc3; xa9]) (len [x76]) = Ok header
        /\ len header = 12
        /\ decode_header header
           = Ok (1700000000, len [x6b; xc3; xa9], len [x76])
        /\ encode_kv 1700000000 [107; 233] (py "v")
           = Ok (12 + len [x6b; xc3; xa9] + len [x76],
                 header ++ [x6b; xc3; xa9] ++ [x76])).
Proof.
  split.
  - apply (proj1 (proj2 (proj2 encode_kv_layout)) 0 (py "ab") (py "cde")).
    vm_compute. reflexivity.
  - apply (proj2 (proj2 (proj2 encode_kv_layout))
             1700000000 [107; 233] (py "v") [x6b; xc3; xa9] [x76]).
    + split; [vm_compute; discriminate | vm_compute; reflexivity].
    + vm_compute. reflexivity.
    + vm_compute. reflexivity.
    + vm_compute. reflexivity.
    + vm_compute. reflexivity.
Defined.

(** C8.  On a byte string whose length is not 12, shorter ones in
    particular, [decode_header] raises [struct.error]. *)
Theorem decode_header_wrong_length data :
  len data ≠ 12 -> decode_header data = Raise StructError.
Proof.
  intros H. apply decode_header_other_length. unfold len in H. lia.
Qed.

Lemma decode_header_wrong_length_witness :
  decode_header [x00; x00; x00; x01; x00; x00; x00] = Raise StructError.
Proof.
  apply decode_header_wrong_length. vm_compute. discriminate.
Defined.

(** C10.  On any 12 bytes [decode_header] returns three integers in
    [0, 2^32); [read_serialised_header] therefore accepts whatever 12 bytes
    it reads; and [decode_header] fails on no input of length 12. *)
Theorem decode_header_any_12_bytes data :
  (len data = 12 ->
   exists timestamp key_size value_size,
     decode_header data = Ok (timestamp, key_size, value_size)
     /\ 0 <= timestamp < 2 ^ 32
     /\ 0 <= key_size < 2 ^ 32
     /\ 0 <= value_size < 2 ^ 32
     /\ forall pre post,
          read_serialised_header
            {| content := pre ++ data ++ post; pos := len pre |}
          = Ok (Some (data, timestamp, key_size, value_size),
                {| content := pre ++ data ++ post; pos := len pre + 12 |}))
  /\ (forall e, decode_header data = Raise e -> len data ≠ 12).
Proof.
  assert (H : len data = 12 ->
    exists ts ks vs, decode_header data = Ok (ts, ks, vs)
      /\ 0 <= ts < 2 ^ 32 /\ 0 <= ks < 2 ^ 32 /\ 0 <= vs < 2 ^ 32).
  { intros Hl. apply decode_header_length. unfold len in Hl. lia. }
  split.
  - intros Hl. destruct (H Hl) as (ts & ks & vs & Hh & Ht & Hk & Hv).
    exists ts, ks, vs. repeat split; try tauto.
    intros pre post. unfold read_serialised_header.
    rewrite <- Hl at 1. rewrite read_exact, Hl.
    change (12 <? 12) with false. cbv iota. now rewrite Hh.
  - intros e He Hl. destruct (H Hl) as (ts & ks & vs & Hh & _). congruence.
Qed.

Lemma decode_header_any_12_bytes_witness :
  exists timestamp key_size value_size,
    decode_header [xff;xff;xff;xff; xff;xff;xff;xff; xff;xff;xff;xff]
    = Ok (timestamp, key_size, value_size)
    /\ 0 <= timestamp < 2 ^ 32
    /\ 0 <= key_size < 2 ^ 32
    /\ 0 <= value_size < 2 ^ 32
    /\ forall pre post,
         read_serialised_header
           {| content := pre ++ [xff;xff;xff;xff; xff;xff;xff;xff;
                                 xff;xff;xff;xff] ++ post;
              pos := len pre |}
         = Ok (Some ([xff;xff;xff;xff; xff;xff;xff;xff; xff;xff;xff;xff],
                     timestamp, key_size, value_size),
               {| content := pre ++ [xff;xff;xff;xff; xff;xff;xff;xff;
                                     xff;xff;xff;xff] ++ post;
                  pos := len pre + 12 |}).
Proof.
  apply (proj1 (decode_header_any_12_bytes _)). vm_compute. reflexivity.
Defined.

(** * Properties of the storage engine *)

Lemma Ready_fresh : Ready fresh.
Proof. apply (Ready_init None). reflexivity. Qed.

(** After [close] the file is as it was and [set] raises. *)
Example set_after_close :
  set 1 (py "k") (py "v") (close fresh) = Raise ValueError
  /\ file (close fresh) = file fresh.
Proof. split; reflexivity. Qed.

(** C1.  On a Ready engine, a [set] that returns is read back by [get]:
    [set(k, v)] then [get(k)] gives [v]; after [set(k, v1)] and
    [set(k, v2)], [get(k)] gives [v2]; after any sequence of [set] calls,
    [get(k)] gives the value of the most recent one for [k].  [set]
    returns whenever the clock reading is in [0, 2^32) and key and value
    have UTF-8 encodings shorter than 2^32 bytes. *)
Theorem set_then_get_last_write self :
  Ready self ->
  (forall now key value self',
     set now key value self = Ok self' -> get key self' = Ok value)
  /\ (forall now1 now2 key value1 value2 self1 self2,
        set now1 key value1 self = Ok self1 ->
        set now2 key value2 self1 = Ok self2 ->
        get key self2 = Ok value2)
  /\ (forall ops key value self',
        set_all ops self = Ok self' ->
        last_value key ops = Some value ->
        get key self' = Ok value)
  /\ (forall now key value key_bytes value_bytes,
        0 <= now < 2 ^ 32 ->
        utf8_encode key = Ok key_bytes ->
        utf8_encode value = Ok value_bytes ->
        len key_bytes < 2 ^ 32 -> len value_bytes < 2 ^ 32 ->
        is_ok (set now key value self)).
Proof.
  intros Hr. pose proof (Ready_well_formed _ Hr) as Hwf.
  split; [|split; [|split]].
  - intros now key value self' H. exact (set_get _ _ _ _ _ Hwf H).
  - intros now1 now2 key v1 v2 s1 s2 H1 H2.
    apply (set_get now2 key v2 s1 s2); [|done].
    exact (set_well_formed _ _ _ _ _ Hwf H1).
  - intros ops key value self' Ha Hl.
    rewrite (set_all_get ops key self self' Hwf Ha). now rewrite Hl.
  - intros now key value kb vb Hn Hk Hv Hkl Hvl.
    now apply (set_succeeds now key value kb vb).
Qed.

Lemma set_then_get_last_write_witness :
  (self1 ← set 1 (py "hamlet") (py "shakespeare") fresh;
   self2 ← set 2 (py "hamlet") (py "bard") self1;
   get (py "hamlet") self2) = Ok (py "bard").
Proof.
  destruct (set 1 (py "hamlet") (py "shakespeare") fresh) as [self1|e] eqn:E1;
    [|vm_compute in E1; discriminate E1].
  cbn [mbind result_bind].
  destruct (set 2 (py "hamlet") (py "bard") self1) as [self2|e] eqn:E2.
  - cbn [mbind result_bind].
    exact (proj1 (proj2 (set_then_get_last_write fresh Ready_fresh))
             _ _ _ _ _ _ _ E1 E2).
  - exfalso. vm_compute in E1. injection E1 as <-.
    vm_compute in E2. discriminate E2.
Defined.

(** C4.  Whatever the state of the engine, [get] on a key that is not in
    the index returns the empty string and raises nothing.  A key whose
    most recent [set] stored the empty string reads the same: the two
    cases cannot be told apart through [get]. *)
Theorem get_absent_key_empty :
  (forall self key, mapping self !! key = None -> get key self = Ok [])
  /\ (forall self ops self' key key',
        Ready self -> set_all ops self = Ok self' ->
        last_value key ops = Some [] ->
        mapping self' !! key' = None ->
        get key self' = Ok [] /\ get key' self' = get key self').
Proof.
  split; [exact get_absent|].
  intros self ops self' key key' Hr Ha Hl Hm.
  pose proof (Ready_well_formed _ Hr) as Hwf.
  rewrite (set_all_get ops key self self' Hwf Ha), Hl.
  now rewrite (get_absent self' key').
Qed.

Lemma get_absent_key_empty_witness :
  get (py "nonexistent") fresh = Ok []
  /\ (self' ← set_all [(7, py "k", [])] fresh; get (py "k") self') = Ok []
  /\ (self' ← set_all [(7, py "k", [])] fresh; get (py "never") self')
     = Ok [].
Proof.
  split; [|split].
  - apply (proj1 get_absent_key_empty). vm_compute. reflexivity.
  - destruct (set_all [(7, py "k", [])] fresh) as [self'|e] eqn:E;
      [|vm_compute in E; discriminate E].
    cbn [mbind result_bind].
    refine (proj1 (proj2 get_absent_key_empty fresh _ self' (py "k")
                     (py "never") Ready_fresh E _ _)).
    + vm_compute. reflexivity.
    + vm_compute in E. injection E as <-. vm_compute. reflexivity.
  - destruct (set_all [(7, py "k", [])] fresh) as [self'|e] eqn:E;
      [|vm_compute in E; discriminate E].
    cbn [mbind result_bind].
    apply (proj1 get_absent_key_empty).
    vm_compute in E. injection E as <-. vm_compute. reflexivity.
Defined.

(** C9.  On a Ready engine [set(k, v)] changes the index at [k] only: for
    every other key the entry and the result of [get] are as before.  The
    offset recorded for [k] is the length the file had, and the file
    afterwards is the file before followed by the new record. *)
Theorem set_frame self now key value self' :
  Ready self ->
  set now key value self = Ok self' ->
  (forall key', key' ≠ key ->
     mapping self' !! key' = mapping self !! key'
     /\ get key' self' = get key' self)
  /\ exists offset buf,
       writer_tell self = Ok offset
       /\ offset = len (file self)
       /\ mapping self' !! key = Some offset
       /\ file self' = file self ++ buf
       /\ slice (file self') 0 offset = file self.
Proof.
  intros Hr Hs. pose proof (Ready_well_formed _ Hr) as Hwf. split.
  - intros key' Hne. exact (set_get_other _ _ _ _ _ key' Hwf Hs Hne).
  - destruct Hwf as [Hw _].
    apply set_Ok in Hs as (n & buf & off & He & Hw' & ->).
    assert (off = len (file self)) as -> by congruence.
    exists (len (file self)), buf. unfold writer_tell. rewrite Hw.
    cbn [file mapping]. repeat split.
    + apply lookup_insert_eq.
    + rewrite <- (app_nil_l (file self ++ buf)), <- (Z.add_0_l (len (file self))).
      change 0 with (len (@nil byte)) at 1 2. apply slice_middle.
Qed.

Lemma set_frame_witness :
  exists self self',
    set 1 (py "hamlet") (py "shakespeare") fresh = Ok self
    /\ set 2 (py "othello") (py "bard") self = Ok self'
    /\ mapping self' !! py "hamlet" = mapping self !! py "hamlet"
    /\ get (py "hamlet") self' = get (py "hamlet") self
    /\ exists buf, file self' = file self ++ buf.
Proof.
  destruct (set 1 (py "hamlet") (py "shakespeare") fresh) as [self|e] eqn:E1;
    [|exfalso; vm_compute in E1; discriminate E1].
  destruct (set 2 (py "othello") (py "bard") self) as [self'|e] eqn:E2;
    [|exfalso; vm_compute in E1; injection E1 as <-;
      vm_compute in E2; discriminate E2].
  exists self, self'. split; [reflexivity|]. split; [exact E2|].
  destruct (set_frame self 2 (py "othello") (py "bard") self'
              (Ready_set _ _ _ _ _ Ready_fresh E1) E2)
    as [Hother (off & buf & _ & _ & _ & Hfile & _)].
  destruct (Hother (py "hamlet")) as [Hm Hg].
  { vm_compute. discriminate. }
  split; [exact Hm|]. split; [exact Hg|]. exists buf. exact Hfile.
Defined.

(** C3, as stated, fails on an engine that was opened on a file with a
    dangling tail: the tail is skipped at startup but stays in the file,
    the next record is appended after it, and the next startup scan reads
    the tail and the bytes after it as a header.  Here the file holds one
    stray byte; [set] and [get] work, and reopening raises. *)
Lemma reopen_after_dangling_tail_raises :
  exists self0 self,
    __init__ (Some [x00]) = Ok self0
    /\ set 5 (py "othello") (py "shakespeare") self0 = Ok self
    /\ get (py "othello") self = Ok (py "shakespeare")
    /\ __init__ (Some (file (close self))) = Raise AssertionError.
Proof.
  eexists _, _. split; [vm_compute; reflexivity|].
  split; [vm_compute; reflexivity|].
  split; vm_compute; reflexivity.
Qed.

(** C3, amended.  Take an engine opened on a file that did not exist or
    that held complete records only.  After any sequence of [set] calls
    and [close], a new engine on the same file starts without an error;
    its index is the scan of the records of the file from offset 0, later
    records replacing earlier ones of the same key; that index is the one
    of the old engine, and every [get] returns what it returned on the old
    engine. *)
Theorem reopen_after_sets existing self0 ops self :
  existing = None \/ (exists entries,
    complete_records entries /\ existing = Some (log_of entries)) ->
  __init__ existing = Ok self0 ->
  set_all ops self0 = Ok self ->
  exists self',
    __init__ (Some (file (close self))) = Ok self'
    /\ (exists entries,
          complete_records entries
          /\ file self = log_of entries
          /\ mapping self' = index_from 0 entries ∅)
    /\ mapping self' = mapping self
    /\ forall key, get key self' = get key self.
Proof.
  intros Hex Hinit Hops.
  destruct (__init___indexed _ _ Hex Hinit) as (es0 & Hi0).
  destruct (set_all_indexed _ _ _ _ Hi0 Hops) as (es & Hi).
  exists self. split; [exact (reopen_indexed _ _ Hi)|].
  destruct Hi as (Hc & Hf & Hm & _). eauto 10.
Qed.

Lemma reopen_after_sets_witness :
  (self0 ← __init__ None;
   self ← set_all [(5, py "othello", py "shakespeare")] self0;
   self' ← __init__ (Some (file (close self)));
   get (py "othello") self') = Ok (py "shakespeare").
Proof.
  destruct (__init__ None) as [self0|e] eqn:E0;
    [|vm_compute in E0; discriminate E0].
  cbn [mbind result_bind].
  destruct (set_all [(5, py "othello", py "shakespeare")] self0)
    as [self|e] eqn:E1;
    [|exfalso; vm_compute in E0; injection E0 as <-;
      vm_compute in E1; discriminate E1].
  cbn [mbind result_bind].
  destruct (reopen_after_sets None self0 _ self (or_introl eq_refl) E0 E1)
    as (self' & -> & _ & _ & Hget).
  cbn [mbind result_bind]. rewrite Hget.
  vm_compute in E0. injection E0 as <-.
  vm_compute in E1. injection E1 as <-.
  vm_compute. reflexivity.
Defined.

(** C5, as stated, fails when the partial last record still has its 12
    header bytes: the scan reads the header, gets fewer bytes than the
    header announces, and [decode_kv] raises.  Here the file is a complete
    record followed by the first 13 of the 14 bytes of another one. *)
Lemma init_partial_record_raises :
  exists n rec,
    encode_kv 0 (py "a") (py "b") = Ok (n, rec)
    /\ n = 14
    /\ __init__ (Some (rec ++ take 13 rec)) = Raise AssertionError.
Proof.
  eexists _, _. split; [vm_compute; reflexivity|].
  split; vm_compute; reflexivity.
Qed.

(** C5, amended.  When the file is a sequence of complete records followed
    by fewer than 12 bytes, the startup scan stops at those bytes and
    [__init__] returns an engine: the index holds exactly the keys of the
    complete records, each with the offset of its last record, and the
    file is left as it was. *)
Theorem init_ignores_short_tail entries tail :
  complete_records entries ->
  len tail < 12 ->
  exists self,
    __init__ (Some (log_of entries ++ tail)) = Ok self
    /\ file self = log_of entries ++ tail
    /\ mapping self = index_from 0 entries ∅
    /\ dom (mapping self) = list_to_set (fst <$> entries).
Proof.
  intros Hc Ht. eexists. split; [exact (__init___log _ _ Hc Ht)|].
  cbn [file mapping]. repeat split.
  now rewrite dom_index_from, dom_empty_L, (right_id_L ∅ (∪)).
Qed.

Lemma init_ignores_short_tail_witness :
  exists self,
    __init__ (Some ([x00;x00;x00;x00; x00;x00;x00;x01; x00;x00;x00;x01;
                     x61; x62] ++ [x00; x00; x00])) = Ok self
    /\ dom (mapping self) = {[ py "a" ]}.
Proof.
  destruct (init_ignores_short_tail
              [(py "a", [x00;x00;x00;x00; x00;x00;x00;x01; x00;x00;x00;x01;
                         x61; x62])]
              [x00; x00; x00])
    as (self & Hi & _ & _ & Hdom).
  - constructor; [|constructor]. exists 0, (py "b"). vm_compute. reflexivity.
  - vm_compute. reflexivity.
  - exists self. split; [exact Hi|]. rewrite Hdom. cbn.
    apply (right_id_L ∅ (∪)).
Defined.

(** * Further lemmas on the record codec *)

Lemma byte_of_Z_unique z b : z mod 256 = byte_to_Z b -> byte_of_Z z = b.
Proof.
  intros H. rewrite <- (byte_of_to_Z b), <- H.
  unfold byte_of_Z. now rewrite Z.mod_mod by lia.
Qed.

Lemma pack_unpack_bytes b0 b1 b2 b3 :
  pack_uint32 (unpack_uint32 b0 b1 b2 b3) = Ok [b0; b1; b2; b3].
Proof.
  pose proof (unpack_uint32_range b0 b1 b2 b3) as Hr.
  unfold pack_uint32.
  assert (E : (0 <=? unpack_uint32 b0 b1 b2 b3)
              && (unpack_uint32 b0 b1 b2 b3 <? uint32_max) = true).
  { apply andb_true_iff. split; [apply Z.leb_le | apply Z.ltb_lt]; lia. }
  rewrite E. clear E Hr. unfold unpack_uint32.
  pose proof (byte_to_Z_range b0). pose proof (byte_to_Z_range b1).
  pose proof (byte_to_Z_range b2). pose proof (byte_to_Z_range b3).
  do 2 f_equal; [|f_equal; [|f_equal; [|f_equal]]];
    apply byte_of_Z_unique; div_lia.
Qed.

Lemma encode_decode_header_bytes data timestamp key_size value_size :
  decode_header data = Ok (timestamp, key_size, value_size) ->
  encode_header timestamp key_size value_size = Ok data.
Proof.
  unfold decode_header, struct_unpack_III.
  do 13 (destruct data as [|? data]; try discriminate).
  intros [= <- <- <-]. unfold encode_header, struct_pack_III.
  rewrite !pack_unpack_bytes. reflexivity.
Qed.

Lemma utf8_encode_cp_Raise c e :
  utf8_encode_cp c = Raise e -> e = UnicodeEncodeError.
Proof.
  unfold utf8_encode_cp.
  repeat match goal with
  | |- context [if ?b then _ else _] => destruct b
  end; congruence.
Qed.

Lemma utf8_encode_Raise s e : utf8_encode s = Raise e -> e = UnicodeEncodeError.
Proof.
  unfold utf8_encode.
  assert (H : forall s, utf8_encode_values s = Raise e -> e = UnicodeEncodeError).
  { clear s. induction s as [|c s IH]; cbn; [discriminate|].
    destruct (utf8_encode_cp c) eqn:Ec; cbn.
    - destruct (utf8_encode_values s); cbn; [discriminate|].
      intros [= <-]. now apply IH.
    - intros [= <-]. eapply utf8_encode_cp_Raise; eauto. }
  destruct (utf8_encode_values s) eqn:E; cbn; [discriminate|].
  intros [= <-]. exact (H _ E).
Qed.

(** Decoding byte values and encoding the code points again gives the byte
    values back: the decoder accepts the shortest form only. *)
Lemma utf8_encode_decode_values n : forall zs s,
  (length zs <= n)%nat ->
  Forall (fun z => 0 <= z < 256) zs ->
  utf8_decode_values zs = Ok s -> utf8_encode_values s = Ok zs.
Proof.
  induction n as [|n IH]; intros zs s Hn Hr.
  { destruct zs; [|cbn in Hn; lia]. cbn. now intros [= <-]. }
  destruct zs as [|z0 r0]; [cbn; now intros [= <-]|].
  cbn [length] in Hn. cbn [utf8_decode_values].
  apply Forall_cons in Hr as [Hz0 Hr].
  destruct (z0 <? 0x80) eqn:E1.
  { intros (t & Ht & [= <-])%bind_Ok. cbn [utf8_encode_values].
    rewrite (IH r0 t) by (done || lia). unfold utf8_encode_cp.
    assert (E0 : (z0 <? 0) = false) by (apply Z.ltb_ge; lia).
    now rewrite E0, E1. }
  destruct (z0 <? 0xC2) eqn:E2; [discriminate|].
  destruct (z0 <? 0xE0) eqn:E3.
  { destruct r0 as [|z1 r1]; [discriminate|].
    apply Forall_cons in Hr as [Hz1 Hr]. cbn [length] in Hn.
    unfold continuation.
    destruct ((0x80 <=? z1) && (z1 <? 0xC0)) eqn:C1; [|discriminate].
    intros (t & Ht & [= <-])%bind_Ok. cbn [utf8_encode_values].
    rewrite (IH r1 t) by (done || lia). bool_to_Z.
    set (c := (z0 - 0xC0) * 64 + (z1 - 0x80)).
    assert (Hc : 0x80 <= c < 0x800 /\ c / 64 = z0 - 0xC0 /\ c mod 64 = z1 - 0x80)
      by (unfold c; div_lia).
    destruct Hc as (Hc & Hd & Hm). unfold utf8_encode_cp.
    settle (c <? 0). settle (c <? 0x80). settle (c <? 0x800).
    rewrite Hd, Hm. cbn. do 3 f_equal; lia. }
  destruct (z0 <? 0xF0) eqn:E4.
  { destruct r0 as [|z1 [|z2 r2]]; [discriminate..|].
    apply Forall_cons in Hr as [Hz1 Hr]. apply Forall_cons in Hr as [Hz2 Hr].
    cbn [length] in Hn. cbv zeta.
    set (c := (z0 - 0xE0) * 4096 + (z1 - 0x80) * 64 + (z2 - 0x80)).
    unfold continuation.
    destruct ((0x80 <=? z1) && (z1 <? 0xC0)) eqn:C1; [|discriminate].
    destruct ((0x80 <=? z2) && (z2 <? 0xC0)) eqn:C2; [|discriminate].
    destruct (0x800 <=? c) eqn:C3; [|discriminate].
    destruct ((0xD800 <=? c) && (c <=? 0xDFFF)) eqn:C4; [discriminate|].
    cbn [andb negb].
    intros (t & Ht & [= <-])%bind_Ok. cbn [utf8_encode_values].
    rewrite (IH r2 t) by (done || lia).
    unfold utf8_encode_cp. rewrite C4. bool_to_Z.
    assert (Hc : c < 0x10000 /\ c / 4096 = z0 - 0xE0
                 /\ (c / 64) mod 64 = z1 - 0x80 /\ c mod 64 = z2 - 0x80)
      by (unfold c; div_lia).
    destruct Hc as (Hc & Hd1 & Hd2 & Hm).
    settle (c <? 0). settle (c <? 0x80). settle (c <? 0x800).
    settle (c <? 0x10000).
    rewrite Hd1, Hd2, Hm. cbn. do 4 f_equal; lia. }
  destruct (z0 <? 0xF5) eqn:E5; [|discriminate].
  destruct r0 as [|z1 [|z2 [|z3 r3]]]; [discriminate..|].
  apply Forall_cons in Hr as [Hz1 Hr]. apply Forall_cons in Hr as [Hz2 Hr].
  apply Forall_cons in Hr as [Hz3 Hr].
  cbn [length] in Hn. cbv zeta.
  set (c := (z0 - 0xF0) * 262144 + (z1 - 0x80) * 4096
            + (z2 - 0x80) * 64 + (z3 - 0x80)).
  unfold continuation.
  destruct ((0x80 <=? z1) && (z1 <? 0xC0)) eqn:C1; [|discriminate].
  destruct ((0x80 <=? z2) && (z2 <? 0xC0)) eqn:C2; [|discriminate].
  destruct ((0x80 <=? z3) && (z3 <? 0xC0)) eqn:C3; [|discriminate].
  destruct (0x10000 <=? c) eqn:C4; [|discriminate].
  destruct (c <? 0x110000) eqn:C5; [|discriminate].
  cbn [andb].
  intros (t & Ht & [= <-])%bind_Ok. cbn [utf8_encode_values].
  rewrite (IH r3 t) by (done || lia).
  unfold utf8_encode_cp. rewrite C5. bool_to_Z.
  assert (Hc : c / 262144 = z0 - 0xF0 /\ (c / 4096) mod 64 = z1 - 0x80
               /\ (c / 64) mod 64 = z2 - 0x80 /\ c mod 64 = z3 - 0x80)
    by (unfold c; div_lia).
  destruct Hc as (Hd1 & Hd2 & Hd3 & Hm).
  settle (c <? 0). settle (c <? 0x80). settle (c <? 0x800).
  settle (c <? 0x10000).
  rewrite Hd1, Hd2, Hd3, Hm. cbn. do 5 f_equal; lia.
Qed.

Lemma fmap_byte_of_to_Z (data : bytes) :
  byte_of_Z <$> (byte_to_Z <$> data) = data.
Proof.
  induction data as [|b data IH]; cbn; [done|].
  now rewrite byte_of_to_Z, IH.
Qed.

Lemma utf8_encode_decode data s :
  utf8_decode data = Ok s -> utf8_encode s = Ok data.
Proof.
  unfold utf8_decode, utf8_encode. intros H.
  rewrite (utf8_encode_decode_values _ (byte_to_Z <$> data) s (le_n _)); [|..|done].
  - cbn. now rewrite fmap_byte_of_to_Z.
  - apply Forall_fmap, Forall_forall. intros b _. apply byte_to_Z_range.
Qed.

(** * Further properties of the record codec *)

(** X1.  A header of three fields in [0, 2^32) has 12 bytes and
    [decode_header] reads the three fields back. *)
Theorem header_round_trip timestamp key_size value_size :
  0 <= timestamp < 2 ^ 32 ->
  0 <= key_size < 2 ^ 32 ->
  0 <= value_size < 2 ^ 32 ->
  exists header,
    encode_header timestamp key_size value_size = Ok header
    /\ len header = 12
    /\ decode_header header = Ok (timestamp, key_size, value_size).
Proof.
  intros Ht Hk Hv.
  destruct (encode_header_decode timestamp key_size value_size Ht Hk Hv)
    as (h & He & Hl & Hd).
  exists h. repeat split; try done. unfold len. lia.
Qed.

Lemma header_round_trip_witness :
  exists header,
    encode_header 4294967295 0 70000 = Ok header
    /\ len header = 12
    /\ decode_header header = Ok (4294967295, 0, 70000).
Proof.
  apply header_round_trip;
    (split; [vm_compute; discriminate | vm_compute; reflexivity]).
Defined.

(** X2.  Whatever 12 bytes [decode_header] is given, [encode_header] on the
    three fields it returns gives the same 12 bytes: no two headers decode
    to the same fields. *)
Theorem header_bytes_round_trip data timestamp key_size value_size :
  decode_header data = Ok (timestamp, key_size, value_size) ->
  encode_header timestamp key_size value_size = Ok data.
Proof. apply encode_decode_header_bytes. Qed.

Lemma header_bytes_round_trip_witness :
  encode_header 16909060 4278190080 255
  = Ok [x01; x02; x03; x04; xff; x00; x00; x00; x00; x00; x00; xff].
Proof.
  apply header_bytes_round_trip. vm_compute. reflexivity.
Defined.

(** X3.  [encode_header] returns exactly when the three fields are in
    [0, 2^32); on any other fields it raises [struct.error]. *)
Theorem encode_header_range timestamp key_size value_size :
  (is_ok (encode_header timestamp key_size value_size) <->
   0 <= timestamp < 2 ^ 32 /\ 0 <= key_size < 2 ^ 32
   /\ 0 <= value_size < 2 ^ 32)
  /\ (~ (0 <= timestamp < 2 ^ 32 /\ 0 <= key_size < 2 ^ 32
         /\ 0 <= value_size < 2 ^ 32) ->
      encode_header timestamp key_size value_size = Raise StructError).
Proof.
  assert (Hok : is_ok (encode_header timestamp key_size value_size) ->
    0 <= timestamp < 2 ^ 32 /\ 0 <= key_size < 2 ^ 32
    /\ 0 <= value_size < 2 ^ 32).
  { intros [h Hh]. exact (encode_header_Ok _ _ _ _ Hh). }
  split; [split; [exact Hok|]|].
  - intros (Ht & Hk & Hv).
    destruct (encode_header_decode _ _ _ Ht Hk Hv) as (h & -> & _).
    apply is_ok_Ok.
  - intros Hbad. unfold encode_header, struct_pack_III in *.
    destruct (pack_uint32 timestamp) as [x|e] eqn:Ex.
    + destruct (pack_uint32 key_size) as [y|e] eqn:Ey.
      * destruct (pack_uint32 value_size) as [z|e] eqn:Ez.
        -- destruct Hbad. apply Hok. apply is_ok_Ok.
        -- cbn. unfold pack_uint32 in Ez.
           destruct (_ && _) in Ez; congruence.
      * cbn. unfold pack_uint32 in Ey. destruct (_ && _) in Ey; congruence.
    + cbn. unfold pack_uint32 in Ex. destruct (_ && _) in Ex; congruence.
Qed.

Lemma encode_header_range_witness :
  encode_header 0 (-1) 0 = Raise StructError
  /\ encode_header 0 0 4294967296 = Raise StructError.
Proof.
  split; apply (proj2 (encode_header_range _ _ _));
    intros (_ & [H1 H2] & [H3 H4]); vm_compute in H1, H4;
    first [now apply H1 | discriminate H4].
Defined.

(** X4.  [encode_kv] returns exactly when key and value have UTF-8
    encodings, both shorter than 2^32 bytes, and the timestamp is in
    [0, 2^32).  It raises [UnicodeEncodeError] when the key has no
    encoding (a lone surrogate), and [struct.error] when the strings are
    encoded and a header field is out of range. *)
Theorem encode_kv_errors timestamp key value :
  (is_ok (encode_kv timestamp key value) <->
   exists key_bytes value_bytes,
     utf8_encode key = Ok key_bytes /\ utf8_encode value = Ok value_bytes
     /\ 0 <= timestamp < 2 ^ 32
     /\ len key_bytes < 2 ^ 32 /\ len value_bytes < 2 ^ 32)
  /\ (~ is_ok (utf8_encode key) ->
      encode_kv timestamp key value = Raise UnicodeEncodeError)
  /\ (forall key_bytes value_bytes,
        utf8_encode key = Ok key_bytes ->
        utf8_encode value = Ok value_bytes ->
        ~ (0 <= timestamp < 2 ^ 32
           /\ len key_bytes < 2 ^ 32 /\ len value_bytes < 2 ^ 32) ->
        encode_kv timestamp key value = Raise StructError).
Proof.
  split; [split|split].
  - intros [[n buf] (kb & vb & h & Hk & Hv & Hh & _)%encode_kv_Ok].
    apply encode_header_Ok in Hh as (Ht & Hkl & Hvl).
    unfold uint32_max in *. exists kb, vb. repeat split; try done; lia.
  - intros (kb & vb & Hk & Hv & Ht & Hkl & Hvl).
    destruct (encode_kv_succeeds _ _ _ _ _ Ht Hk Hv Hkl Hvl) as (h & _ & ->).
    apply is_ok_Ok.
  - intros Hbad. unfold encode_kv.
    destruct (utf8_encode key) as [kb|e] eqn:Ek.
    + destruct Hbad. apply is_ok_Ok.
    + cbn. now rewrite (utf8_encode_Raise _ _ Ek).
  - intros kb vb Hk Hv Hbad. unfold encode_kv. rewrite Hk, Hv.
    cbn [mbind result_bind].
    rewrite (proj2 (encode_header_range timestamp (len kb) (len vb)));
      [reflexivity|].
    intros (Ht & Hkl & Hvl). apply Hbad. repeat split; lia.
Qed.

Lemma encode_kv_errors_witness :
  encode_kv 0 [0xD800] (py "v") = Raise UnicodeEncodeError
  /\ encode_kv 4294967296 (py "k") (py "v") = Raise StructError.
Proof.
  split.
  - apply (proj1 (proj2 (encode_kv_errors _ _ _))).
    intros [kb Hk]. vm_compute in Hk. discriminate Hk.
  - apply (proj2 (proj2 (encode_kv_errors _ _ _)) [x6b] [x76]).
    + vm_compute. reflexivity.
    + vm_compute. reflexivity.
    + intros ([_ H] & _). vm_compute in H. discriminate H.
Defined.

(** X5.  Two calls of [encode_kv] that return the same bytes were given the
    same timestamp, key and value. *)
Theorem encode_kv_injective timestamp key value timestamp' key' value' n n' buf :
  encode_kv timestamp key value = Ok (n, buf) ->
  encode_kv timestamp' key' value' = Ok (n', buf) ->
  timestamp = timestamp' /\ key = key' /\ value = value'.
Proof.
  intros H1%decode_encode_kv H2%decode_encode_kv.
  rewrite H1 in H2. now injection H2 as -> -> ->.
Qed.

Lemma encode_kv_injective_witness :
  3 = 3 /\ py "ab" = py "ab" /\ py "c" = py "c".
Proof.
  apply (encode_kv_injective 3 (py "ab") (py "c") 3 (py "ab") (py "c") 15 15
           [x00;x00;x00;x03; x00;x00;x00;x02; x00;x00;x00;x01; x61; x62; x63]);
    vm_compute; reflexivity.
Defined.

(** X6.  A buffer that [decode_kv] accepts is the encoding of what it
    returns: [encode_kv] on the decoded timestamp, key and value returns
    that buffer and its length. *)
Theorem encode_decode_round_trip data timestamp key value :
  decode_kv data = Ok (timestamp, key, value) ->
  encode_kv timestamp key value = Ok (len data, data).
Proof.
  intros (ks & vs & Hh & Hl & Hk & Hv)%decode_kv_Ok.
  pose proof (decode_header_range _ _ _ _ Hh) as (_ & Hks & Hvs).
  pose proof (decode_header_Ok _ _ Hh) as H12. rewrite length_take in H12.
  assert (Hd12 : 12 <= len data) by (unfold len; lia).
  rewrite slice_take_drop in Hk, Hv by lia.
  set (kb := take (Z.to_nat (12 + ks - 12)) (drop (Z.to_nat 12) data)) in *.
  set (vb := take (Z.to_nat (12 + ks + vs - (12 + ks)))
                  (drop (Z.to_nat (12 + ks)) data)) in *.
  assert (Hkl : len kb = ks).
  { unfold kb, len in *. rewrite length_take, length_drop. lia. }
  assert (Hvl : len vb = vs).
  { unfold vb, len in *. rewrite length_take, length_drop. lia. }
  assert (Hdata : data = take 12 data ++ kb ++ vb).
  { rewrite <- (take_drop 12 data) at 1. f_equal.
    rewrite <- (take_drop (Z.to_nat ks) (drop 12 data)) at 1.
    unfold kb, vb. change (Z.to_nat 12) with 12%nat. f_equal.
    - f_equal. lia.
    - rewrite drop_drop.
      replace (Z.to_nat (12 + ks)) with (12 + Z.to_nat ks)%nat by lia.
      symmetry. apply take_ge. rewrite length_drop. unfold len in Hl. lia. }
  apply encode_kv_Ok. exists kb, vb, (take 12 data).
  split; [now apply utf8_encode_decode|].
  split; [now apply utf8_encode_decode|].
  rewrite Hkl, Hvl. split; [now apply encode_decode_header_bytes|]. done.
Qed.

Lemma encode_decode_round_trip_witness :
  encode_kv 3 (py "ab") [0xE9]
  = Ok (len [x00;x00;x00;x03; x00;x00;x00;x02; x00;x00;x00;x02;
             x61; x62; xc3; xa9],
        [x00;x00;x00;x03; x00;x00;x00;x02; x00;x00;x00;x02;
         x61; x62; xc3; xa9]).
Proof.
  apply encode_decode_round_trip. vm_compute. reflexivity.
Defined.

(** * Further lemmas on the storage engine *)

Lemma index_from_app_list es1 : forall es2 offset mapping,
  index_from offset (es1 ++ es2) mapping
  = index_from (offset + len (log_of es1)) es2 (index_from offset es1 mapping).
Proof.
  induction es1 as [|[k r] es1 IH]; intros es2 off m; cbn [app index_from].
  - unfold log_of. cbn. now rewrite Z.add_0_r.
  - rewrite IH. f_equal. unfold log_of. cbn [fmap list_fmap concat snd].
    rewrite len_app. fold (log_of es1). lia.
Qed.

Lemma index_from_lookup_other es : forall key offset (mapping : gmap str Z),
  key ∉ (fst <$> es) ->
  index_from offset es mapping !! key = mapping !! key.
Proof.
  induction es as [|[k r] es IH]; intros key off m Hk; cbn [index_from]; [done|].
  cbn in Hk. apply not_elem_of_cons in Hk as [Hne Hk].
  rewrite IH by done. now apply lookup_insert_ne.
Qed.

(** The scan over a run of complete records, whatever follows them. *)
Lemma load_loop_prefix entries : forall pre rest mapping,
  complete_records entries ->
  load_loop {| content := pre ++ log_of entries ++ rest; pos := len pre |}
    mapping
  = load_loop {| content := pre ++ log_of entries ++ rest;
                 pos := len pre + len (log_of entries) |}
      (index_from (len pre) entries mapping).
Proof.
  induction entries as [|[key rec] entries IH]; intros pre rest m Hc.
  - unfold log_of. cbn. now rewrite Z.add_0_r.
  - apply Forall_cons in Hc as [(ts & v & Hd) Hc]. cbn [fst snd] in Hd.
    rewrite load_loop_step.
    unfold log_of. cbn [fmap list_fmap concat snd]. fold (log_of entries).
    rewrite <- (app_assoc rec).
    erewrite load_record_at; [|eexists _, _; eauto|exact Hd].
    cbn [tell pos index_from].
    rewrite <- len_app.
    replace (pre ++ rec ++ log_of entries ++ rest)
      with ((pre ++ rec) ++ log_of entries ++ rest) by now rewrite <- app_assoc.
    rewrite IH by done. rewrite !len_app. do 2 f_equal. lia.
Qed.

(** The loop body on bytes that hold a full header and that [decode_kv]
    refuses. *)
Lemma load_record_Raise pre rest timestamp key_size value_size e :
  12 <= len rest ->
  decode_header (take 12 rest) = Ok (timestamp, key_size, value_size) ->
  decode_kv (take (Z.to_nat (12 + key_size + value_size)) rest) = Raise e ->
  load_record {| content := pre ++ rest; pos := len pre |} = Raise e.
Proof.
  intros H12 Hh Hd.
  pose proof (decode_header_range _ _ _ _ Hh) as (_ & Hks & Hvs).
  assert (Hl : len (take 12 rest) = 12).
  { unfold len in *. rewrite length_take. lia. }
  assert (Hbuf : take 12 rest
                 ++ take (Z.to_nat (Z.min (key_size + value_size)
                                      (len (drop 12 rest)))) (drop 12 rest)
                 = take (Z.to_nat (12 + key_size + value_size)) rest).
  { rewrite take_take_drop. unfold len. rewrite length_drop.
    destruct (Z_le_gt_dec (key_size + value_size)
                (Z.of_nat (length rest - 12))) as [Hle|Hgt].
    - f_equal. lia.
    - rewrite !take_ge; [done|unfold len in *; lia..]. }
  assert (Hrest : rest = take 12 rest ++ drop 12 rest)
    by (symmetry; apply take_drop).
  revert Hh Hl Hbuf Hrest.
  generalize (take 12 rest) (drop 12 rest). intros h t Hh Hl Hbuf ->.
  unfold load_record, read_serialised_header.
  assert (Hfirst : read {| content := pre ++ h ++ t; pos := len pre |} 12
                   = (h, {| content := pre ++ h ++ t; pos := len pre + 12 |})).
  { rewrite <- Hl. apply read_exact. }
  rewrite Hfirst, Hl.
  change (12 <? 12) with false. cbv iota. rewrite Hh.
  cbn [mbind result_bind].
  replace {| content := pre ++ h ++ t; pos := len pre + 12 |}
    with {| content := (pre ++ h) ++ t; pos := len (pre ++ h) |}
    by (rewrite len_app, Hl, <- app_assoc; done).
  rewrite read_at by lia. rewrite Hbuf, Hd. reflexivity.
Qed.

Lemma decode_kv_wrong_length data timestamp key_size value_size :
  decode_header (take 12 data) = Ok (timestamp, key_size, value_size) ->
  len data ≠ 12 + key_size + value_size ->
  decode_kv data = Raise AssertionError.
Proof.
  intros Hh Hl.
  pose proof (decode_header_Ok _ _ Hh) as H12. rewrite length_take in H12.
  destruct (decode_kv_header data) as (ts' & ks' & vs' & Hh' & _ & _ & ->).
  { unfold len. lia. }
  rewrite Hh in Hh'. injection Hh' as <- <- <-.
  assert (E : (len data =? 12 + key_size + value_size) = false)
    by now apply Z.eqb_neq.
  now rewrite E.
Qed.

Lemma set_all_append ops : forall self self',
  set_all ops self = Ok self' ->
  (exists more, file self' = file self ++ more)
  /\ dom (mapping self')
     = dom (mapping self) ∪ list_to_set ((fun op => op.1.2) <$> ops).
Proof.
  induction ops as [|[[now k] v] ops IH]; intros self self'; cbn.
  - intros [= <-]. split; [exists []; now rewrite app_nil_r|].
    now rewrite (right_id_L ∅ (∪)).
  - intros (s1 & H1 & H2)%bind_Ok.
    destruct (IH _ _ H2) as [(more & Hf) Hd].
    apply set_Ok in H1 as (n & buf & off & _ & _ & ->).
    cbn [file mapping] in *. split.
    + exists (buf ++ more). now rewrite Hf, app_assoc.
    + rewrite Hd, dom_insert_L.
      rewrite (assoc_L (∪)). f_equal. apply (comm_L (∪)).
Qed.

Lemma read_serialised_header_cases f :
  0 <= pos f ->
  (len (content f) - pos f < 12 /\
   exists f', read_serialised_header f = Ok (None, f')
              /\ content f' = content f
              /\ pos f' = Z.max (pos f) (len (content f)))
  \/ (12 <= len (content f) - pos f /\
      exists header_buf timestamp key_size value_size f',
        read_serialised_header f
        = Ok (Some (header_buf, timestamp, key_size, value_size), f')
        /\ content f' = content f
        /\ header_buf = slice (content f) (pos f) (pos f + 12)
        /\ decode_header header_buf = Ok (timestamp, key_size, value_size)
        /\ pos f' = pos f + 12).
Proof.
  intros Hpos. destruct f as [data p]. cbn [content pos] in *.
  unfold read_serialised_header, read. cbn [content pos].
  change (12 <? 0) with false. cbv iota.
  set (rest := drop (Z.to_nat p) data).
  assert (Hrest : len rest = Z.max 0 (len data - p)).
  { unfold rest, len. rewrite length_drop. lia. }
  set (buf := take (Z.to_nat (Z.min 12 (len rest))) rest).
  assert (Hbuf : len buf = Z.min 12 (len rest)).
  { unfold buf, len. rewrite length_take. lia. }
  destruct (len buf <? 12) eqn:E; bool_to_Z.
  - left. split; [lia|]. eexists. split; [reflexivity|].
    cbn [content pos]. split; [done | lia].
  - right. split; [lia|].
    destruct (decode_header_length buf) as (ts & ks & vs & Hh & _).
    { unfold len in *. lia. }
    rewrite Hh. cbn [mbind result_bind].
    eexists buf, ts, ks, vs, _. split; [reflexivity|].
    cbn [content pos]. split; [done|]. split; [|split; [done | lia]].
    rewrite slice_take_drop by lia. fold rest. unfold buf.
    f_equal. lia.
Qed.

Lemma __init___Raise entries rest timestamp key_size value_size e :
  complete_records entries ->
  12 <= len rest ->
  decode_header (take 12 rest) = Ok (timestamp, key_size, value_size) ->
  decode_kv (take (Z.to_nat (12 + key_size + value_size)) rest) = Raise e ->
  __init__ (Some (log_of entries ++ rest)) = Raise e.
Proof.
  intros Hc H12 Hh Hd. unfold __init__, _load_existing, open_rb.
  pose proof (load_loop_prefix entries [] rest ∅ Hc) as Hp.
  cbn [app] in Hp. change (len (@nil byte)) with 0 in Hp.
  rewrite Z.add_0_l in Hp. rewrite Hp, load_loop_step.
  rewrite (load_record_Raise (log_of entries) rest _ _ _ e H12 Hh Hd).
  reflexivity.
Qed.

(** * Further properties of the storage engine *)

Lemma complete_two_writes : complete_records two_writes.
Proof.
  repeat constructor.
  - exists 1, (py "old"). vm_compute. reflexivity.
  - exists 2, (py "new"). vm_compute. reflexivity.
Qed.

(** X7.  The subscript forms behave as [set] and [get]: on a Ready engine
    [disk[key] = value] followed by [disk[key]] gives [value], and
    [disk[item]] for an item that is not in the index gives the empty
    string where a [dict] would raise [KeyError]. *)
Theorem subscript_set_get self now key value self' :
  Ready self ->
  __setitem__ now key value self = Ok self' ->
  __getitem__ key self' = Ok value
  /\ forall item, mapping self' !! item = None -> __getitem__ item self' = Ok [].
Proof.
  intros Hr Hs. unfold __setitem__, __getitem__ in *. split.
  - exact (set_get _ _ _ _ _ (Ready_well_formed _ Hr) Hs).
  - intros item. apply get_absent.
Qed.

Lemma subscript_set_get_witness :
  (self' ← __setitem__ 9 (py "hamlet") (py "shakespeare") fresh;
   __getitem__ (py "hamlet") self') = Ok (py "shakespeare").
Proof.
  destruct (__setitem__ 9 (py "hamlet") (py "shakespeare") fresh)
    as [self'|e] eqn:E; [|vm_compute in E; discriminate E].
  cbn [mbind result_bind].
  exact (proj1 (subscript_set_get fresh _ _ _ _ Ready_fresh E)).
Defined.


(** X9.  On a Ready engine [get] never raises, whatever the key: every
    offset in the index is the offset of a record that can be read and
    decoded. *)
Theorem ready_get_never_raises self key :
  Ready self -> is_ok (get key self).
Proof.
  intros [_ Hv]%Ready_well_formed.
  destruct (mapping self !! key) as [off|] eqn:Hm.
  - destruct (Hv _ _ Hm) as (rec & Hr & ts & v & Hd).
    exists v. exact (get_at _ _ _ _ _ _ _ Hm Hr Hd).
  - exists []. now apply get_absent.
Qed.

Lemma ready_get_never_raises_witness :
  exists self,
    __init__ (Some (log_of two_writes ++ [x00; x00])) = Ok self
    /\ is_ok (get (py "k") self) /\ is_ok (get (py "other") self).
Proof.
  destruct (__init__ (Some (log_of two_writes ++ [x00; x00])))
    as [self|e] eqn:E; [|exfalso; vm_compute in E; discriminate E].
  exists self. split; [reflexivity|].
  split; apply ready_get_never_raises; exact (Ready_init _ _ E).
Defined.

(** X10.  On a Ready engine the offset the index holds for a key is the
    offset of a complete record inside the file, the record holds that
    very key, and [get] returns the value of that record. *)
Theorem ready_index_points_to_own_key self key offset :
  Ready self ->
  mapping self !! key = Some offset ->
  exists rec timestamp value,
    slice (file self) offset (offset + len rec) = rec
    /\ decode_kv rec = Ok (timestamp, key, value)
    /\ get key self = Ok value
    /\ 0 <= offset /\ offset + len rec <= len (file self).
Proof.
  intros [_ Hv]%Ready_well_formed Hm.
  destruct (Hv _ _ Hm) as (rec & Hr & ts & v & Hd).
  exists rec, ts, v.
  pose proof (get_at _ _ _ _ _ _ _ Hm Hr Hd) as Hg.
  destruct Hr as (pre & post & Hf & ->).
  rewrite Hf, !len_app. pose proof (len_nonneg pre).
  pose proof (len_nonneg post). pose proof (len_nonneg rec).
  repeat split; try done; try lia. apply slice_middle.
Qed.

Lemma ready_index_points_to_own_key_witness :
  exists self rec timestamp value,
    set 4 (py "k") (py "v") fresh = Ok self
    /\ slice (file self) 0 (0 + len rec) = rec
    /\ decode_kv rec = Ok (timestamp, py "k", value)
    /\ get (py "k") self = Ok value.
Proof.
  destruct (set 4 (py "k") (py "v") fresh) as [self|e] eqn:E;
    [|exfalso; vm_compute in E; discriminate E].
  destruct (ready_index_points_to_own_key self (py "k") 0
              (Ready_set _ _ _ _ _ Ready_fresh E))
    as (rec & ts & v & H1 & H2 & H3 & _).
  - vm_compute in E. injection E as <-. vm_compute. reflexivity.
  - exists self, rec, ts, v. done.
Defined.

(** X11.  A new engine returns the empty string for every key it has no
    record of: any key when the file did not exist, and any key that no
    complete record of the file holds otherwise. *)
Theorem init_absent_keys_read_empty key :
  (forall self, __init__ None = Ok self -> get key self = Ok [])
  /\ (forall entries tail self,
        complete_records entries -> len tail < 12 ->
        key ∉ (fst <$> entries) ->
        __init__ (Some (log_of entries ++ tail)) = Ok self ->
        get key self = Ok []).
Proof.
  split.
  - intros self [= <-]. reflexivity.
  - intros entries tail self Hc Ht Hk Hi.
    rewrite (__init___log _ _ Hc Ht) in Hi. injection Hi as <-.
    apply get_absent. cbn [mapping].
    now rewrite index_from_lookup_other.
Qed.

Lemma init_absent_keys_read_empty_witness :
  (self ← __init__ (Some (log_of two_writes ++ [x00]));
   get (py "nonexistent") self) = Ok []
  /\ (self ← __init__ (Some []); get (py "nonexistent") self) = Ok [].
Proof.
  split.
  - destruct (__init__ (Some (log_of two_writes ++ [x00])))
      as [self|e] eqn:E; [|vm_compute in E; discriminate E].
    cbn [mbind result_bind].
    apply (proj2 (init_absent_keys_read_empty (py "nonexistent"))
             two_writes [x00] self complete_two_writes); [| |exact E].
    + vm_compute. reflexivity.
    + vm_compute. intros H.
      repeat (apply elem_of_cons in H as [H|H]; [discriminate H|]).
      now apply elem_of_nil in H.
  - destruct (__init__ (Some [])) as [self|e] eqn:E;
      [|vm_compute in E; discriminate E].
    cbn [mbind result_bind].
    apply (proj2 (init_absent_keys_read_empty (py "nonexistent"))
             [] [] self); [constructor | | |exact E].
    + vm_compute. reflexivity.
    + apply not_elem_of_nil.
Defined.

(** X12.  The startup scan fails with the very exception [decode_kv] raises
    on the first bytes it cannot decode: after any number of complete
    records, when at least 12 bytes follow and [decode_kv] refuses what
    their header announces, [__init__] raises that exception and no engine
    is built. *)
Theorem init_raises_decode_error entries rest timestamp key_size value_size e :
  complete_records entries ->
  12 <= len rest ->
  decode_header (take 12 rest) = Ok (timestamp, key_size, value_size) ->
  decode_kv (take (Z.to_nat (12 + key_size + value_size)) rest) = Raise e ->
  __init__ (Some (log_of entries ++ rest)) = Raise e.
Proof. apply __init___Raise. Qed.

Lemma init_raises_decode_error_witness :
  __init__ (Some (log_of two_writes
                  ++ [x00;x00;x00;x03; x00;x00;x00;x01; x00;x00;x00;x01;
                      xff; x61; x00]))
  = Raise UnicodeDecodeError.
Proof.
  apply (init_raises_decode_error two_writes _ 3 1 1 UnicodeDecodeError
           complete_two_writes).
  - vm_compute. discriminate.
  - vm_compute. reflexivity.
  - vm_compute. reflexivity.
Defined.

(** X13.  A last record that has its 12 header bytes and fewer body bytes
    than the header announces makes [__init__] raise [AssertionError],
    however many complete records come before it. *)
Theorem init_truncated_record_raises entries rest timestamp key_size value_size :
  complete_records entries ->
  12 <= len rest ->
  decode_header (take 12 rest) = Ok (timestamp, key_size, value_size) ->
  len rest < 12 + key_size + value_size ->
  __init__ (Some (log_of entries ++ rest)) = Raise AssertionError.
Proof.
  intros Hc H12 Hh Hl.
  apply (__init___Raise entries rest timestamp key_size value_size); try done.
  rewrite take_ge by (unfold len in *; lia).
  apply (decode_kv_wrong_length rest timestamp key_size value_size Hh). lia.
Qed.

Lemma init_truncated_record_raises_witness :
  __init__ (Some (log_of two_writes
                  ++ [x00;x00;x00;x03; x00;x00;x00;x01; x00;x00;x00;x05;
                      x6b; x6e; x65]))
  = Raise AssertionError.
Proof.
  apply (init_truncated_record_raises two_writes _ 3 1 5 complete_two_writes).
  - vm_compute. discriminate.
  - vm_compute. reflexivity.
  - vm_compute. reflexivity.
Defined.

(** X14.  A sequence of [set] calls only appends to the file and only adds
    keys to the index: the file afterwards starts with the file before,
    and the keys of the index are those it had and those written.  No key
    is ever removed. *)
Theorem set_all_only_appends ops self self' :
  set_all ops self = Ok self' ->
  (exists more, file self' = file self ++ more)
  /\ dom (mapping self')
     = dom (mapping self) ∪ list_to_set ((fun op => op.1.2) <$> ops).
Proof. apply set_all_append. Qed.

Lemma set_all_only_appends_witness :
  exists self',
    set_all [(1, py "a", py "x"); (2, py "b", py "y"); (3, py "a", [])] fresh
    = Ok self'
    /\ dom (mapping self') = {[ py "a"; py "b" ]}.
Proof.
  destruct (set_all [(1, py "a", py "x"); (2, py "b", py "y");
                     (3, py "a", [])] fresh) as [self'|e] eqn:E;
    [|exfalso; vm_compute in E; discriminate E].
  exists self'. split; [reflexivity|].
  rewrite (proj2 (set_all_only_appends _ _ _ E)).
  apply set_eq. intros k. cbn.
  rewrite !elem_of_union, !elem_of_singleton, elem_of_empty.
  change (dom (mapping fresh)) with (dom (∅ : gmap str Z)).
  rewrite dom_empty_L, elem_of_empty. tauto.
Defined.

(** X15.  Every [set] that returns leaves the bytes the file had where
    they were and adds one record after them, also when the key was
    already in the index: the file afterwards is the file before, then the
    12-byte header of (timestamp, key length, value length), then the
    UTF-8 bytes of the key and of the value.  So the file is longer by 12
    plus the two UTF-8 lengths, its first bytes are the old file, and
    every record that could be read at an offset before can be read at
    that offset afterwards. *)
Theorem set_file_growth now key value self self' key_bytes value_bytes :
  set now key value self = Ok self' ->
  utf8_encode key = Ok key_bytes ->
  utf8_encode value = Ok value_bytes ->
  (exists header,
     encode_header now (len key_bytes) (len value_bytes) = Ok header
     /\ len header = 12
     /\ file self' = file self ++ header ++ key_bytes ++ value_bytes)
  /\ len (file self') = len (file self) + 12 + len key_bytes + len value_bytes
  /\ slice (file self') 0 (len (file self)) = file self
  /\ (forall offset rec,
        0 <= offset -> offset + len rec <= len (file self) ->
        slice (file self) offset (offset + len rec) = rec ->
        slice (file self') offset (offset + len rec) = rec).
Proof.
  intros (n & buf & off & He & _ & ->)%set_Ok Hk Hv. cbn [file].
  apply encode_kv_Ok in He as (kb & vb & h & Hk' & Hv' & Hh & -> & _).
  assert (kb = key_bytes) as -> by congruence.
  assert (vb = value_bytes) as -> by congruence.
  pose proof (encode_header_Ok _ _ _ _ Hh) as (Ht & Hkl & Hvl).
  destruct (encode_header_decode _ _ _ Ht Hkl Hvl) as (h' & Hh' & Hlen & _).
  assert (h' = h) as -> by congruence.
  assert (Hl12 : len h = 12) by (unfold len; lia).
  split; [exists h; done|]. split; [rewrite !len_app; lia|]. split.
  - rewrite <- (app_nil_l (file self ++ _)).
    rewrite <- (Z.add_0_l (len (file self))).
    change 0 with (len (@nil byte)) at 1 2. apply slice_middle.
  - intros offset rec Ho Hr Hs.
    pose proof (len_nonneg rec) as Hrec.
    rewrite slice_take_drop in Hs by lia.
    pose proof (len_nonneg (h ++ key_bytes ++ value_bytes)) as Hnew.
    rewrite slice_take_drop by (rewrite ?len_app; lia).
    rewrite <- Hs at 2.
    rewrite drop_app_le by (unfold len in *; lia).
    rewrite take_app_le; [done|].
    rewrite length_drop. unfold len in *. lia.
Qed.

Lemma set_file_growth_witness :
  exists self1 self2,
    set 1 (py "k") (py "old") fresh = Ok self1
    /\ set 2 (py "k") (py "new") self1 = Ok self2
    /\ len (file self2) = 32
    /\ slice (file self2) 0 (len (file self1)) = file self1
    /\ file self2
       = file self1 ++ [x00;x00;x00;x02; x00;x00;x00;x01; x00;x00;x00;x03]
         ++ [x6b] ++ [x6e; x65; x77].
Proof.
  destruct (set 1 (py "k") (py "old") fresh) as [self1|e] eqn:E1;
    [|exfalso; vm_compute in E1; discriminate E1].
  destruct (set 2 (py "k") (py "new") self1) as [self2|e] eqn:E2;
    [|exfalso; vm_compute in E1; injection E1 as <-;
      vm_compute in E2; discriminate E2].
  exists self1, self2. split; [reflexivity|]. split; [exact E2|].
  destruct (set_file_growth _ _ _ _ _ [x6b] [x6e; x65; x77] E2)
    as ((h & Hh & _ & Hfile) & Hlen & Hpre & _); [reflexivity..|].
  destruct (set_file_growth _ _ _ _ _ [x6b] [x6f; x6c; x64] E1)
    as (_ & Hlen1 & _); [reflexivity..|].
  split; [|split; [exact Hpre|]].
  - rewrite Hlen, Hlen1. reflexivity.
  - rewrite Hfile. vm_compute in Hh. injection Hh as <-. reflexivity.
Defined.

(** X16.  [read_serialised_header] never raises.  It returns [None] exactly
    when fewer than 12 bytes lie between the handle and the end of the
    file, and the handle is then at the end of the file (or where it was,
    if that was further).  Otherwise it returns the 12 bytes of the file at
    the position of the handle together with the three fields
    [decode_header] reads in them, and the handle has moved on by 12.
    The file is not changed. *)
Theorem read_serialised_header_total f :
  0 <= pos f ->
  exists header f',
    read_serialised_header f = Ok (header, f')
    /\ (header = None <-> len (content f) - pos f < 12)
    /\ content f' = content f
    /\ (len (content f) - pos f < 12 ->
        header = None /\ pos f' = Z.max (pos f) (len (content f)))
    /\ (12 <= len (content f) - pos f ->
        exists timestamp key_size value_size,
          header = Some (slice (content f) (pos f) (pos f + 12),
                         timestamp, key_size, value_size)
          /\ len (slice (content f) (pos f) (pos f + 12)) = 12
          /\ decode_header (slice (content f) (pos f) (pos f + 12))
             = Ok (timestamp, key_size, value_size)
          /\ pos f' = pos f + 12).
Proof.
  intros Hpos.
  destruct (read_serialised_header_cases f Hpos)
    as [[Hl (f' & -> & Hc & Hp)]
       | [Hl (hb & ts & ks & vs & f' & -> & Hc & -> & Hd & Hp)]].
  - exists None, f'. split; [reflexivity|]. split; [done|].
    split; [done|]. split; [done|]. lia.
  - eexists _, f'. split; [reflexivity|].
    split; [split; [discriminate | lia]|]. split; [done|].
    split; [lia|]. intros _. exists ts, ks, vs.
    split; [reflexivity|]. split; [|done].
    apply decode_header_Ok in Hd. unfold len. lia.
Qed.

Lemma read_serialised_header_total_witness :
  (exists f',
     read_serialised_header {| content := [x00; x01; x02]; pos := 1 |}
     = Ok (None, f') /\ pos f' = 3)
  /\ (exists f',
        read_serialised_header
          {| content := [xaa; x00;x00;x00;x07; x00;x00;x00;x01;
                         x00;x00;x00;x02; x6b; x76; x77];
             pos := 1 |}
        = Ok (Some ([x00;x00;x00;x07; x00;x00;x00;x01; x00;x00;x00;x02],
                    7, 1, 2), f')
        /\ pos f' = 13).
Proof.
  split.
  - destruct (read_serialised_header_total
                {| content := [x00; x01; x02]; pos := 1 |})
      as (header & f' & Hr & _ & _ & Hshort & _).
    { vm_compute. discriminate. }
    destruct Hshort as [-> Hp]; [vm_compute; reflexivity|].
    exists f'. split; [exact Hr | exact Hp].
  - destruct (read_serialised_header_total
                {| content := [xaa; x00;x00;x00;x07; x00;x00;x00;x01;
                               x00;x00;x00;x02; x6b; x76; x77];
                   pos := 1 |})
      as (header & f' & Hr & _ & _ & _ & Hfull).
    { vm_compute. discriminate. }
    destruct Hfull as (ts & ks & vs & -> & _ & Hd & Hp);
      [vm_compute; discriminate|].
    exists f'. split; [|exact Hp].
    rewrite Hr. vm_compute in Hd. injection Hd as <- <- <-. reflexivity.
Defined.

(** X17.  Loading a log, the last record of a key wins: when the record
    [rec] for [key] is followed by complete records of other keys only and
    by fewer than 12 more bytes, the new engine maps [key] to the offset of
    [rec] and [get] returns the value [rec] holds. *)
Theorem init_last_record_wins es1 key rec es2 tail timestamp value :
  complete_records (es1 ++ (key, rec) :: es2) ->
  key ∉ (fst <$> es2) ->
  len tail < 12 ->
  decode_kv rec = Ok (timestamp, key, value) ->
  exists self,
    __init__ (Some (log_of (es1 ++ (key, rec) :: es2) ++ tail)) = Ok self
    /\ mapping self !! key = Some (len (log_of es1))
    /\ get key self = Ok value.
Proof.
  intros Hc Hk Ht Hd. eexists. split; [exact (__init___log _ _ Hc Ht)|].
  assert (Hm : index_from 0 (es1 ++ (key, rec) :: es2) ∅ !! key
               = Some (len (log_of es1))).
  { rewrite index_from_app_list. cbn [index_from].
    rewrite index_from_lookup_other by done.
    now rewrite lookup_insert_eq. }
  split; [exact Hm|].
  eapply get_at; [exact Hm| |exact Hd]. cbn [file].
  exists (log_of es1), (log_of es2 ++ tail). split; [|done].
  rewrite len_log_of_app. unfold log_of at 2.
  cbn [fmap list_fmap concat snd]. fold (log_of es2).
  now rewrite <- !app_assoc.
Qed.

Lemma init_last_record_wins_witness :
  exists self,
    __init__ (Some (log_of two_writes ++ [x00])) = Ok self
    /\ mapping self !! py "k" = Some 16
    /\ get (py "k") self = Ok (py "new").
Proof.
  apply (init_last_record_wins
           [(py "k", [x00;x00;x00;x01; x00;x00;x00;x01; x00;x00;x00;x03;
                      x6b; x6f; x6c; x64])]
           (py "k")
           [x00;x00;x00;x02; x00;x00;x00;x01; x00;x00;x00;x03;
            x6b; x6e; x65; x77]
           [] [x00] 2 (py "new")).
  - exact complete_two_writes.
  - apply not_elem_of_nil.
  - vm_compute. reflexivity.
  - vm_compute. reflexivity.
Defined.

(** X18.  When the index holds for a key an offset with fewer than 12
    bytes of file after it (the file was cut short behind the engine's
    back), [get] raises [AssertionError]. *)
Theorem get_stale_offset_raises self key offset :
  mapping self !! key = Some offset ->
  0 <= offset ->
  len (file self) - offset < 12 ->
  get key self = Raise AssertionError.
Proof.
  intros Hm Hpos Hl. unfold get. rewrite Hm. unfold seek, open_rb.
  cbn [content].
  destruct (read_serialised_header_cases
              {| content := file self; pos := offset |} Hpos)
    as [[_ (f' & -> & _)] | [Hl' _]]; [reflexivity|].
  cbn [content pos] in Hl'. lia.
Qed.

Lemma get_stale_offset_raises_witness :
  get (py "k") {| file := [x00; x00; x00; x01; x00];
                  mapping := {[ py "k" := 0 ]};
                  writer := Some 5 |}
  = Raise AssertionError.
Proof.
  apply (get_stale_offset_raises _ (py "k") 0).
  - vm_compute. reflexivity.
  - vm_compute. discriminate.
  - vm_compute. reflexivity.
Defined.
